(** * Path mapping of mpy-workbench (pathMapping.ts)

    A shallow embedding of the pure part of [pathMapping.ts]: the path
    normalizer, the forward and reverse mappings and the derivation of the
    device directories, with the properties stated about them.

    A JavaScript string is a sequence of UTF-16 code units.  The functions
    below only ever inspect a code unit to compare it with ['/'] or ['\'],
    so a code unit is modelled by an [ascii] and a string by [string]:
    [length], [startsWith], [slice] and [+] then read as in the source. *)

From Stdlib Require Import Strings.String Strings.Ascii.
From Stdlib Require Import Lists.List Bool.Bool Arith.Arith ZArith.ZArith Lia.
From Stdlib Require Import Sorting.Permutation Sorting.Sorted.
Import ListNotations.

Open Scope list_scope.
Open Scope string_scope.

(** ** JavaScript string primitives used by the source *)

Module JsString.

Definition slash : ascii := "/"%char.
Definition backslash : ascii := "\"%char.

Definition isSlash (c : ascii) : bool := Ascii.eqb c slash.
Definition isBackslash (c : ascii) : bool := Ascii.eqb c backslash.

(** [s.startsWith(pre)] *)
Definition startsWith (s pre : string) : bool := String.prefix pre s.

(** [s.slice(n)] for a non-negative [n]: the code units from index [n] on,
    the empty string when [n] is past the end. *)
Fixpoint slice (s : string) (n : nat) {struct n} : string :=
  match n, s with
  | 0, _ => s
  | S _, EmptyString => EmptyString
  | S n', String _ s' => slice s' n'
  end.

(** [s.slice(0, e)] for a non-negative [e]. *)
Fixpoint sliceTo (s : string) (e : nat) {struct e} : string :=
  match e, s with
  | 0, _ => EmptyString
  | S _, EmptyString => EmptyString
  | S e', String c s' => String c (sliceTo s' e')
  end.

(** [s.charCodeAt(i) === CHAR_FORWARD_SLASH]; out of range the code is NaN
    and the comparison is false. *)
Definition slashAt (s : string) (i : nat) : bool :=
  match String.get i s with
  | Some c => isSlash c
  | None => false
  end.

(** [s.replace(/\\/g, "/")] *)
Fixpoint replaceBackslashes (s : string) : string :=
  match s with
  | EmptyString => EmptyString
  | String c s' =>
      String (if isBackslash c then slash else c) (replaceBackslashes s')
  end.

(** [s.replace(/\/+/g, "/")]: every maximal run of slashes becomes one. *)
Fixpoint collapseSlashes (s : string) : string :=
  match s with
  | EmptyString => EmptyString
  | String c s' =>
      if isSlash c then
        match s' with
        | String d _ =>
            if isSlash d then collapseSlashes s'
            else String slash (collapseSlashes s')
        | EmptyString => String slash EmptyString
        end
      else String c (collapseSlashes s')
  end.

(** [s.replace(/\/$/, "")]: without the [m] flag [$] is the end of the
    input, so the only possible match is a slash in last position. *)
Fixpoint stripTrailingSlash (s : string) : string :=
  match s with
  | EmptyString => EmptyString
  | String c EmptyString => if isSlash c then EmptyString else s
  | String c s' => String c (stripTrailingSlash s')
  end.

(** [s.split("/")] *)
Fixpoint split (s : string) : list string :=
  match s with
  | EmptyString => [EmptyString]
  | String c s' =>
      if isSlash c then EmptyString :: split s'
      else match split s' with
           | h :: t => String c h :: t
           | [] => [String c EmptyString]
           end
  end.

(** Truthiness of a string: [Boolean(p)] is false only for [""]. *)
Definition truthy (s : string) : bool :=
  match s with
  | EmptyString => false
  | String _ _ => true
  end.

(** Does the string contain a backslash; two slashes in a row; does it end
    with a slash; has it a code unit that is not a slash. *)
Fixpoint hasBackslash (s : string) : bool :=
  match s with
  | EmptyString => false
  | String c s' => isBackslash c || hasBackslash s'
  end.

Fixpoint hasDoubleSlash (s : string) : bool :=
  match s with
  | EmptyString => false
  | String c s' =>
      (isSlash c && match s' with
                    | String d _ => isSlash d
                    | EmptyString => false
                    end)
      || hasDoubleSlash s'
  end.

Fixpoint endsWithSlash (s : string) : bool :=
  match s with
  | EmptyString => false
  | String c EmptyString => isSlash c
  | String _ s' => endsWithSlash s'
  end.

Fixpoint hasNonSlash (s : string) : bool :=
  match s with
  | EmptyString => false
  | String c s' => negb (isSlash c) || hasNonSlash s'
  end.

(** Is some code unit neither a slash nor a backslash. *)
Fixpoint hasNonSeparator (s : string) : bool :=
  match s with
  | EmptyString => false
  | String c s' =>
      (negb (isSlash c) && negb (isBackslash c)) || hasNonSeparator s'
  end.

End JsString.

Import JsString.

(** ** The data model *)

(** [interface PathMapping { local: string; device: string }] *)
Record PathMapping : Type := mkPathMapping {
  local : string;
  device : string
}.

(** ** The path normalizer *)

(** [p.replace(/\\/g, "/").replace(/\/+/g, "/").replace(/\/$/, "")] *)
Definition normalizePath (p : string) : string :=
  stripTrailingSlash (collapseSlashes (replaceBackslashes p)).

(** [rootPath === "/" ? "" : normalizePath(rootPath)] *)
Definition effectiveRoot (rootPath : string) : string :=
  if String.eqb rootPath "/" then "" else normalizePath rootPath.

(** The device prefix counts as the device root:
    [normalizedDevicePrefix === "" || normalizedDevicePrefix === "/"]. *)
Definition isRootPrefix (p : string) : bool :=
  String.eqb p "" || String.eqb p "/".

(** ** Forward mapping *)

(** The "standard path joining" used without rules and when no rule
    matches. *)
Definition joinUnderRoot (normalizedRootPath normalizedLocalRel : string)
  : string :=
  if String.eqb normalizedRootPath "" then "/" ++ normalizedLocalRel
  else normalizedRootPath ++ "/" ++ normalizedLocalRel.

(** One iteration of the [for (const mapping of mappings)] loop of
    [applyPathMappings]: [Some r] when the body returns [r], [None] when it
    falls through to the next rule. *)
Definition applyMapping (normalizedLocalRel normalizedRootPath : string)
  (mapping : PathMapping) : option string :=
  let normalizedLocalPrefix := normalizePath (local mapping) in
  let normalizedDevicePrefix := normalizePath (device mapping) in
  if String.eqb normalizedLocalRel normalizedLocalPrefix then
    if isRootPrefix normalizedDevicePrefix then Some "/"
    else Some normalizedDevicePrefix
  else if startsWith normalizedLocalRel (normalizedLocalPrefix ++ "/") then
    let relativePart :=
      slice normalizedLocalRel (String.length normalizedLocalPrefix + 1) in
    let devicePath :=
      if isRootPrefix normalizedDevicePrefix then "/" ++ relativePart
      else normalizedDevicePrefix ++ "/" ++ relativePart in
    let devicePath :=
      if negb (String.eqb normalizedRootPath "")
         && negb (startsWith normalizedDevicePrefix normalizedRootPath)
      then
        if isRootPrefix normalizedDevicePrefix
        then normalizedRootPath ++ "/" ++ relativePart
        else normalizedRootPath ++ "/" ++ normalizedDevicePrefix
               ++ "/" ++ relativePart
      else devicePath in
    Some (collapseSlashes devicePath)
  else None.

(** The loop itself, followed by the fallback after it. *)
Fixpoint applyScan (normalizedLocalRel normalizedRootPath : string)
  (mappings : list PathMapping) : string :=
  match mappings with
  | [] => joinUnderRoot normalizedRootPath normalizedLocalRel
  | mapping :: rest =>
      match applyMapping normalizedLocalRel normalizedRootPath mapping with
      | Some r => r
      | None => applyScan normalizedLocalRel normalizedRootPath rest
      end
  end.

(** [applyPathMappings(localRel, rootPath, mappings)]; [mappings] has type
    [PathMapping[] | undefined], [None] is [undefined]. *)
Definition applyPathMappings (localRel rootPath : string)
  (mappings : option (list PathMapping)) : string :=
  let normalizedLocalRel := normalizePath localRel in
  let normalizedRootPath := effectiveRoot rootPath in
  match mappings with
  | None | Some [] => joinUnderRoot normalizedRootPath normalizedLocalRel
  | Some ms => applyScan normalizedLocalRel normalizedRootPath ms
  end.

(** ** Reverse mapping *)

(** The root-stripping step at the start of [reversePathMappings]. *)
Definition stripRoot (normalizedDevicePath normalizedRootPath : string)
  : string :=
  if negb (String.eqb normalizedRootPath "")
     && startsWith normalizedDevicePath (normalizedRootPath ++ "/")
  then slice normalizedDevicePath (String.length normalizedRootPath + 1)
  else if startsWith normalizedDevicePath "/"
       then slice normalizedDevicePath 1
       else normalizedDevicePath.

(** [effectiveDevicePrefix]: the normalized device prefix of a rule without
    its leading slash. *)
Definition effectiveDevicePrefix (mapping : PathMapping) : string :=
  let normalizedDevicePrefix := normalizePath (device mapping) in
  if startsWith normalizedDevicePrefix "/" then slice normalizedDevicePrefix 1
  else normalizedDevicePrefix.

(** One iteration of the loop of [reversePathMappings]. *)
Definition reverseMapping (relativeDevicePath : string)
  (mapping : PathMapping) : option string :=
  let normalizedLocalPrefix := normalizePath (local mapping) in
  let effectiveDevicePrefix := effectiveDevicePrefix mapping in
  if isRootPrefix effectiveDevicePrefix then
    Some (normalizedLocalPrefix ++ "/" ++ relativeDevicePath)
  else if String.eqb relativeDevicePath effectiveDevicePrefix then
    Some normalizedLocalPrefix
  else if startsWith relativeDevicePath (effectiveDevicePrefix ++ "/") then
    let relativePart :=
      slice relativeDevicePath (String.length effectiveDevicePrefix + 1) in
    Some (normalizedLocalPrefix ++ "/" ++ relativePart)
  else None.

Fixpoint reverseScan (relativeDevicePath : string)
  (mappings : list PathMapping) : string :=
  match mappings with
  | [] => relativeDevicePath
  | mapping :: rest =>
      match reverseMapping relativeDevicePath mapping with
      | Some r => r
      | None => reverseScan relativeDevicePath rest
      end
  end.

(** [reversePathMappings(devicePath, rootPath, mappings)] *)
Definition reversePathMappings (devicePath rootPath : string)
  (mappings : option (list PathMapping)) : string :=
  let normalizedDevicePath := normalizePath devicePath in
  let normalizedRootPath := effectiveRoot rootPath in
  let relativeDevicePath :=
    stripRoot normalizedDevicePath normalizedRootPath in
  match mappings with
  | None | Some [] => relativeDevicePath
  | Some ms => reverseScan relativeDevicePath ms
  end.

(** ** Directory derivation *)

(** [path.posix.dirname] is Node's, not this repository's; it is embedded
    here as Node implements it (lib/path.js, [posix.dirname]).  The loop
    [for (let i = path.length - 1; i >= 1; --i)] looks for the last slash
    that is followed by a code unit other than a slash: [dirnameEnd path i
    matchedSlash] is the value of [end] after the loop started at index
    [i], [None] standing for [-1]. *)
Fixpoint dirnameEnd (path : string) (i : nat) (matchedSlash : bool)
  : option nat :=
  match i with
  | 0 => None
  | S i' =>
      if slashAt path i then
        if negb matchedSlash then Some i
        else dirnameEnd path i' matchedSlash
      else dirnameEnd path i' false
  end.

Definition dirname (path : string) : string :=
  if Nat.eqb (String.length path) 0 then "."
  else
    let hasRoot := slashAt path 0 in
    match dirnameEnd path (String.length path - 1) true with
    | None => if hasRoot then "/" else "."
    | Some e =>
        if hasRoot && Nat.eqb e 1 then "//" else sliceTo path e
    end.

(** [getMappedDeviceDirectory(localRel, rootPath, mappings)] *)
Definition getMappedDeviceDirectory (localRel rootPath : string)
  (mappings : option (list PathMapping)) : string :=
  let devicePath := applyPathMappings localRel rootPath mappings in
  let dir := dirname devicePath in
  if String.eqb dir "." then "/" else dir.

(** A [Set<string>] keeps its elements in insertion order and [add] of an
    element already present changes nothing: a list without repetition. *)
Definition setAdd (x : string) (directories : list string) : list string :=
  if existsb (String.eqb x) directories then directories
  else (directories ++ [x])%list.

(** The loop condition [currentDir !== "/" && currentDir !== "."]. *)
Definition belowRoot (currentDir : string) : bool :=
  negb (String.eqb currentDir "/") && negb (String.eqb currentDir ".").

(** [while (currentDir !== "/" && currentDir !== ".") { directories.add
    (currentDir); currentDir = dirname(currentDir) }], one unit of fuel per
    iteration; [None] when the fuel does not suffice. *)
Fixpoint walkUp (fuel : nat) (currentDir : string)
  (directories : list string) : option (list string) :=
  if belowRoot currentDir then
    match fuel with
    | 0 => None
    | S fuel' =>
        walkUp fuel' (dirname currentDir) (setAdd currentDir directories)
    end
  else Some directories.

(** The [for (const localRel of localFiles)] loop.  The walk from
    [currentDir] is given [length currentDir + 1] iterations, which the
    theorems below show to be enough. *)
Fixpoint collectDirectories (localFiles : list string) (rootPath : string)
  (mappings : option (list PathMapping)) (directories : list string)
  : option (list string) :=
  match localFiles with
  | [] => Some directories
  | localRel :: rest =>
      let devicePath := applyPathMappings localRel rootPath mappings in
      let currentDir := dirname devicePath in
      match walkUp (S (String.length currentDir)) currentDir directories with
      | Some directories' =>
          collectDirectories rest rootPath mappings directories'
      | None => None
      end
  end.

(** [a.split("/").filter((p) => p).length] *)
Definition depth (a : string) : nat :=
  List.length (filter truthy (split a)).

(** The comparator [(a, b) => depthA - depthB]. *)
Definition byDepth (a b : string) : Z :=
  (Z.of_nat (depth a) - Z.of_nat (depth b))%Z.

(** [Array.prototype.sort] is stable (ECMAScript 2019) and with a
    consistent comparator its result is the one stable sorted arrangement,
    whichever algorithm the engine runs; it is computed here by insertion.
    An element goes before the first one it does not compare greater
    than. *)
Fixpoint insertSorted (cmp : string -> string -> Z) (x : string)
  (l : list string) : list string :=
  match l with
  | [] => [x]
  | y :: l' =>
      if (cmp x y <=? 0)%Z then x :: l else y :: insertSorted cmp x l'
  end.

Definition arraySort (cmp : string -> string -> Z) (l : list string)
  : list string :=
  fold_right (insertSorted cmp) [] l.

(** [getAllMappedDirectories(localFiles, rootPath, mappings)] *)
Definition getAllMappedDirectories (localFiles : list string)
  (rootPath : string) (mappings : option (list PathMapping))
  : option (list string) :=
  match collectDirectories localFiles rootPath mappings [] with
  | Some directories => Some (arraySort byDepth directories)
  | None => None
  end.

(** ** Vocabulary of the statements *)

(** The string begins with a slash. *)
Definition headSlash (s : string) : bool :=
  match s with
  | String c _ => isSlash c
  | EmptyString => false
  end.

(** The canonical form: no backslash, no two slashes in a row, no slash in
    last position. *)
Definition isNormal (s : string) : bool :=
  negb (hasBackslash s) && negb (hasDoubleSlash s) && negb (endsWithSlash s).

(** Two spellings of one path: they differ by a backslash written for a
    slash, by a slash written twice, or by a slash added at the end, any
    number of times and in any place. *)
Inductive pathVariant : string -> string -> Prop :=
| variant_backslash (a b : string) :
    pathVariant (a ++ String backslash b) (a ++ String slash b)
| variant_duplicate (a b : string) :
    pathVariant (a ++ String slash (String slash b)) (a ++ String slash b)
| variant_trailing (a : string) :
    pathVariant (a ++ String slash EmptyString) a
| variant_refl (a : string) : pathVariant a a
| variant_sym (a b : string) : pathVariant a b -> pathVariant b a
| variant_trans (a b c : string) :
    pathVariant a b -> pathVariant b c -> pathVariant a c.

(** A rule matches a normalized local path: exactly, or as a prefix
    followed by a slash. *)
Definition ruleMatches (normalizedLocalRel : string) (m : PathMapping)
  : bool :=
  String.eqb normalizedLocalRel (normalizePath (local m))
  || startsWith normalizedLocalRel (normalizePath (local m) ++ "/").

(** The string is empty or begins with a slash. *)
Definition emptyOrAbsolute (s : string) : bool :=
  String.eqb s "" || headSlash s.

(** The rules of a [PathMapping[] | undefined], none when [undefined]. *)
Definition rulesOf (mappings : option (list PathMapping))
  : list PathMapping :=
  match mappings with
  | Some ms => ms
  | None => []
  end.

(** A rule returns in the scan of [reversePathMappings]: its effective
    device prefix is empty, or is the relative device path, or is a prefix
    of it followed by a slash. *)
Definition reverseRuleApplies (relativeDevicePath : string)
  (m : PathMapping) : bool :=
  String.eqb (effectiveDevicePrefix m) ""
  || String.eqb relativeDevicePath (effectiveDevicePrefix m)
  || startsWith relativeDevicePath (effectiveDevicePrefix m ++ "/").

(** [dirname] applied [k] times. *)
Fixpoint dirnameIter (k : nat) (p : string) : string :=
  match k with
  | 0 => p
  | S k' => dirnameIter k' (dirname p)
  end.

(** [d] is a strict ancestor directory of [p]: it is reached from [p] by
    taking the parent directory once or more. *)
Definition strictAncestor (d p : string) : Prop :=
  exists k, dirnameIter (S k) p = d.

(** [a] comes before [b] in the list. *)
Definition precedes (a b : string) (l : list string) : Prop :=
  exists l1 l2 l3, l = (l1 ++ a :: l2 ++ b :: l3)%list.

(** Ascending depth. *)
Definition sortedByDepth (l : list string) : Prop :=
  StronglySorted (fun a b => depth a <= depth b) l.

(** * Properties *)

(** ** Strings *)

Section StringFacts.

Lemma append_empty_r (s : string) : s ++ "" = s.
Proof. induction s as [|c s IH]; simpl; [reflexivity | now rewrite IH]. Qed.

Lemma append_assoc (a b c : string) : (a ++ b) ++ c = a ++ (b ++ c).
Proof. induction a as [|x a IH]; simpl; [reflexivity | now rewrite IH]. Qed.

Lemma length_append (a b : string) :
  String.length (a ++ b) = String.length a + String.length b.
Proof. induction a as [|x a IH]; simpl; [reflexivity | now rewrite IH]. Qed.

Lemma isSlash_true (c : ascii) : isSlash c = true -> c = slash.
Proof. unfold isSlash. apply Ascii.eqb_eq. Qed.

Lemma isBackslash_true (c : ascii) : isBackslash c = true -> c = backslash.
Proof. unfold isBackslash. apply Ascii.eqb_eq. Qed.

Lemma isBackslash_not_slash (c : ascii) :
  isBackslash c = true -> isSlash c = false.
Proof. intros H. apply isBackslash_true in H. now subst c. Qed.

Lemma prefix_cons (x y : ascii) (a s : string) :
  String.prefix (String x a) (String y s)
  = if Ascii.eqb x y then String.prefix a s else false.
Proof.
  cbn [String.prefix]. destruct (ascii_dec x y) as [->|N].
  - now rewrite Ascii.eqb_refl.
  - apply Ascii.eqb_neq in N. now rewrite N.
Qed.

Lemma startsWith_append (a b : string) : startsWith (a ++ b) a = true.
Proof.
  unfold startsWith. induction a as [|x a IH].
  - now destruct b.
  - cbn [append]. rewrite prefix_cons, Ascii.eqb_refl. exact IH.
Qed.

Lemma startsWith_split (s pre : string) :
  startsWith s pre = true -> s = pre ++ slice s (String.length pre).
Proof.
  unfold startsWith. revert s.
  induction pre as [|x pre IH]; intros s H.
  - reflexivity.
  - destruct s as [|y s]; [discriminate|].
    rewrite prefix_cons in H.
    destruct (Ascii.eqb x y) eqn:E; [|discriminate].
    apply Ascii.eqb_eq in E. subst y.
    cbn [String.length slice append]. f_equal. now apply IH.
Qed.

Lemma slice_append (a b : string) : slice (a ++ b) (String.length a) = b.
Proof. induction a as [|x a IH]; simpl; [reflexivity | exact IH]. Qed.

Lemma startsWith_slash (s : string) :
  startsWith s "/" = match s with
                     | String c _ => isSlash c
                     | EmptyString => false
                     end.
Proof.
  unfold startsWith. destruct s as [|c s]; [reflexivity|].
  rewrite prefix_cons. unfold isSlash, slash. rewrite (Ascii.eqb_sym c).
  destruct (Ascii.eqb "/" c); [now destruct s | reflexivity].
Qed.

Lemma sliceTo_slice (s : string) (e : nat) : s = sliceTo s e ++ slice s e.
Proof.
  revert s. induction e as [|e IH]; intros [|c s]; simpl; try reflexivity.
  f_equal. apply IH.
Qed.

Lemma length_sliceTo (s : string) (e : nat) :
  e <= String.length s -> String.length (sliceTo s e) = e.
Proof.
  revert s. induction e as [|e IH]; intros [|c s]; simpl; intros H;
    try reflexivity; try lia.
  rewrite IH; lia.
Qed.

End StringFacts.

(** ** The normalizer *)

Section Normalizer.

Lemma collapseSlashes_cons (c : ascii) (s : string) :
  collapseSlashes (String c s)
  = if isSlash c then
      if headSlash s then collapseSlashes s
      else String slash (collapseSlashes s)
    else String c (collapseSlashes s).
Proof. destruct s; reflexivity. Qed.

Lemma stripTrailingSlash_cons (c : ascii) (s : string) :
  stripTrailingSlash (String c s)
  = match s with
    | EmptyString => if isSlash c then "" else String c ""
    | String _ _ => String c (stripTrailingSlash s)
    end.
Proof. destruct s; reflexivity. Qed.

Lemma headSlash_collapse (s : string) :
  headSlash (collapseSlashes s) = headSlash s.
Proof.
  induction s as [|c s IH]; [reflexivity|].
  rewrite collapseSlashes_cons. cbn [headSlash].
  destruct (isSlash c) eqn:Ec.
  - destruct (headSlash s) eqn:Es; [now rewrite IH | reflexivity].
  - cbn [headSlash]. exact Ec.
Qed.

Lemma replaceBackslashes_clean (s : string) :
  hasBackslash (replaceBackslashes s) = false.
Proof.
  induction s as [|c s IH]; [reflexivity|].
  cbn [replaceBackslashes hasBackslash]. rewrite IH.
  destruct (isBackslash c) eqn:E; [reflexivity | now rewrite E].
Qed.

Lemma collapseSlashes_no_backslash (s : string) :
  hasBackslash s = false -> hasBackslash (collapseSlashes s) = false.
Proof.
  induction s as [|c s IH]; [reflexivity|].
  cbn [hasBackslash]. intros H. apply orb_false_elim in H as [Hc Hs].
  rewrite collapseSlashes_cons.
  destruct (isSlash c); [destruct (headSlash s)|];
    cbn [hasBackslash]; rewrite ?Hc; auto.
Qed.

Lemma collapseSlashes_clean (s : string) :
  hasDoubleSlash (collapseSlashes s) = false.
Proof.
  induction s as [|c s IH]; [reflexivity|].
  rewrite collapseSlashes_cons.
  destruct (isSlash c) eqn:Ec; [destruct (headSlash s) eqn:Es|].
  - exact IH.
  - change (hasDoubleSlash (String slash (collapseSlashes s)))
      with (isSlash slash && headSlash (collapseSlashes s)
            || hasDoubleSlash (collapseSlashes s)).
    now rewrite headSlash_collapse, Es, IH.
  - change (hasDoubleSlash (String c (collapseSlashes s)))
      with (isSlash c && headSlash (collapseSlashes s)
            || hasDoubleSlash (collapseSlashes s)).
    now rewrite Ec, IH.
Qed.

Lemma hasDoubleSlash_cons (c : ascii) (s : string) :
  hasDoubleSlash (String c s)
  = isSlash c && headSlash s || hasDoubleSlash s.
Proof. reflexivity. Qed.

Lemma endsWithSlash_cons (c : ascii) (s : string) :
  endsWithSlash (String c s)
  = match s with
    | EmptyString => isSlash c
    | String _ _ => endsWithSlash s
    end.
Proof. destruct s; reflexivity. Qed.

Lemma stripTrailingSlash_no_backslash (s : string) :
  hasBackslash s = false -> hasBackslash (stripTrailingSlash s) = false.
Proof.
  induction s as [|c s IH]; [reflexivity|].
  cbn [hasBackslash]. intros H. apply orb_false_elim in H as [Hc Hs].
  rewrite stripTrailingSlash_cons. destruct s as [|d s].
  - destruct (isSlash c); cbn [hasBackslash]; now rewrite ?Hc.
  - cbn [hasBackslash]. rewrite Hc. now apply IH.
Qed.

Lemma headSlash_strip (s : string) :
  headSlash (stripTrailingSlash s) = true -> headSlash s = true.
Proof.
  destruct s as [|c s]; [easy|]. rewrite stripTrailingSlash_cons.
  destruct s; [destruct (isSlash c) |]; easy.
Qed.

Lemma stripTrailingSlash_no_double (s : string) :
  hasDoubleSlash s = false -> hasDoubleSlash (stripTrailingSlash s) = false.
Proof.
  induction s as [|c s IH]; [reflexivity|].
  rewrite hasDoubleSlash_cons. intros H.
  apply orb_false_elim in H as [Hc Hs].
  rewrite stripTrailingSlash_cons. destruct s as [|d s].
  - destruct (isSlash c); [reflexivity|].
    now rewrite hasDoubleSlash_cons, andb_false_r.
  - rewrite hasDoubleSlash_cons, (IH Hs), orb_false_r.
    destruct (isSlash c); [|reflexivity].
    destruct (headSlash (stripTrailingSlash (String d s))) eqn:E;
      [|reflexivity].
    apply headSlash_strip in E. now rewrite E in Hc.
Qed.

Lemma stripTrailingSlash_clean (s : string) :
  hasDoubleSlash s = false -> endsWithSlash (stripTrailingSlash s) = false.
Proof.
  induction s as [|c s IH]; [reflexivity|].
  rewrite hasDoubleSlash_cons. intros H.
  apply orb_false_elim in H as [Hc Hs].
  rewrite stripTrailingSlash_cons. destruct s as [|d s].
  - destruct (isSlash c) eqn:E; [reflexivity|]. cbn. exact E.
  - rewrite endsWithSlash_cons. specialize (IH Hs).
    destruct (stripTrailingSlash (String d s)) eqn:E; [|exact IH].
    rewrite stripTrailingSlash_cons in E.
    destruct s; [|discriminate].
    destruct (isSlash d) eqn:Ed; [|discriminate].
    cbn [headSlash] in Hc. rewrite Ed, andb_true_r in Hc. exact Hc.
Qed.

Lemma replaceBackslashes_fixed (s : string) :
  hasBackslash s = false -> replaceBackslashes s = s.
Proof.
  induction s as [|c s IH]; [reflexivity|].
  cbn [hasBackslash replaceBackslashes]. intros H.
  apply orb_false_elim in H as [Hc Hs]. now rewrite Hc, IH.
Qed.

Lemma collapseSlashes_fixed (s : string) :
  hasDoubleSlash s = false -> collapseSlashes s = s.
Proof.
  induction s as [|c s IH]; [reflexivity|].
  rewrite hasDoubleSlash_cons, collapseSlashes_cons. intros H.
  apply orb_false_elim in H as [Hc Hs]. rewrite (IH Hs).
  destruct (isSlash c) eqn:Ec; [|reflexivity].
  cbn in Hc. rewrite Hc. apply isSlash_true in Ec. now subst c.
Qed.

Lemma stripTrailingSlash_fixed (s : string) :
  endsWithSlash s = false -> stripTrailingSlash s = s.
Proof.
  induction s as [|c s IH]; [reflexivity|].
  rewrite endsWithSlash_cons, stripTrailingSlash_cons.
  destruct s as [|d s]; intros H; [now rewrite H | now rewrite IH].
Qed.

Lemma isNormal_parts (s : string) :
  isNormal s = true
  <-> hasBackslash s = false /\ hasDoubleSlash s = false
      /\ endsWithSlash s = false.
Proof.
  unfold isNormal. rewrite !andb_true_iff, !negb_true_iff. tauto.
Qed.

Lemma normalizePath_isNormal (p : string) : isNormal (normalizePath p) = true.
Proof.
  apply isNormal_parts. unfold normalizePath.
  pose proof (replaceBackslashes_clean p) as H1.
  pose proof (collapseSlashes_clean (replaceBackslashes p)) as H2.
  repeat split.
  - now apply stripTrailingSlash_no_backslash, collapseSlashes_no_backslash.
  - now apply stripTrailingSlash_no_double.
  - now apply stripTrailingSlash_clean.
Qed.

Lemma normalizePath_fixed (s : string) :
  isNormal s = true -> normalizePath s = s.
Proof.
  intros H. apply isNormal_parts in H as (H1 & H2 & H3).
  unfold normalizePath.
  now rewrite replaceBackslashes_fixed, collapseSlashes_fixed,
    stripTrailingSlash_fixed.
Qed.

(** Spellings of one path. *)

Lemma replaceBackslashes_append (a b : string) :
  replaceBackslashes (a ++ b) = replaceBackslashes a ++ replaceBackslashes b.
Proof.
  induction a as [|c a IH]; [reflexivity|].
  cbn [append replaceBackslashes]. now rewrite IH.
Qed.

Lemma headSlash_append_cons (a : string) (c : ascii) (b b' : string) :
  headSlash (a ++ String c b) = headSlash (a ++ String c b').
Proof. now destruct a. Qed.

Lemma collapseSlashes_duplicate (a b : string) :
  collapseSlashes (a ++ String slash (String slash b))
  = collapseSlashes (a ++ String slash b).
Proof.
  induction a as [|c a IH]; [reflexivity|].
  cbn [append]. rewrite !collapseSlashes_cons, IH.
  now rewrite (headSlash_append_cons a slash (String slash b) b).
Qed.

Lemma collapseSlashes_empty (s : string) : collapseSlashes s = "" -> s = "".
Proof.
  induction s as [|c s IH]; [reflexivity|].
  rewrite collapseSlashes_cons.
  destruct (isSlash c); [|discriminate].
  destruct (headSlash s) eqn:E; [|discriminate].
  intros H. apply IH in H. now subst s.
Qed.

Lemma stripTrailingSlash_cons_nonempty (c : ascii) (s : string) :
  s <> "" -> stripTrailingSlash (String c s) = String c (stripTrailingSlash s).
Proof. destruct s; [now intros [] | reflexivity]. Qed.

Lemma append_nonempty_r (a : string) (c : ascii) (b : string) :
  a ++ String c b <> "".
Proof. now destruct a. Qed.

Lemma collapseSlashes_nonempty (s : string) :
  s <> "" -> collapseSlashes s <> "".
Proof. intros N H. now apply collapseSlashes_empty in H. Qed.

Lemma stripTrailingSlash_collapse_trailing (t : string) :
  stripTrailingSlash (collapseSlashes (t ++ String slash ""))
  = stripTrailingSlash (collapseSlashes t).
Proof.
  induction t as [|c t IH]; [reflexivity|].
  cbn [append]. rewrite !collapseSlashes_cons.
  destruct t as [|d t].
  - destruct (isSlash c) eqn:Ec; cbn; now rewrite ?Ec.
  - assert (N1 : collapseSlashes (String d t ++ String slash "") <> "")
      by apply collapseSlashes_nonempty, append_nonempty_r.
    assert (N2 : collapseSlashes (String d t) <> "")
      by now apply collapseSlashes_nonempty.
    destruct (isSlash c).
    + change (headSlash (String d t ++ String slash ""))
        with (headSlash (String d t)).
      destruct (headSlash (String d t)); [exact IH|].
      rewrite !stripTrailingSlash_cons_nonempty by assumption. now rewrite IH.
    + rewrite !stripTrailingSlash_cons_nonempty by assumption. now rewrite IH.
Qed.

Lemma normalizePath_variant (p q : string) :
  pathVariant p q -> normalizePath p = normalizePath q.
Proof.
  induction 1 as [a b|a b|a|a|a b _ IH|a b c _ IH1 _ IH2].
  - unfold normalizePath. rewrite !replaceBackslashes_append.
    cbn [replaceBackslashes]. reflexivity.
  - unfold normalizePath. rewrite !replaceBackslashes_append.
    cbn [replaceBackslashes].
    f_equal. apply collapseSlashes_duplicate.
  - unfold normalizePath. rewrite replaceBackslashes_append.
    apply stripTrailingSlash_collapse_trailing.
  - reflexivity.
  - now symmetry.
  - now transitivity (normalizePath b).
Qed.

(** Leading slash. *)

Lemma headSlash_replaceBackslashes (s : string) :
  headSlash s = true -> headSlash (replaceBackslashes s) = true.
Proof.
  destruct s as [|c s]; [easy|]. cbn [headSlash replaceBackslashes].
  now destruct (isBackslash c).
Qed.

Lemma hasNonSlash_replaceBackslashes (s : string) :
  hasNonSlash (replaceBackslashes s) = hasNonSeparator s.
Proof.
  induction s as [|c s IH]; [reflexivity|].
  cbn [replaceBackslashes hasNonSlash hasNonSeparator]. rewrite IH.
  destruct (isBackslash c) eqn:E; [|now rewrite andb_true_r].
  now rewrite andb_false_r.
Qed.

Lemma hasNonSlash_collapseSlashes (s : string) :
  hasNonSlash (collapseSlashes s) = hasNonSlash s.
Proof.
  induction s as [|c s IH]; [reflexivity|].
  rewrite collapseSlashes_cons. cbn [hasNonSlash].
  destruct (isSlash c) eqn:Ec; [destruct (headSlash s)|];
    cbn [hasNonSlash]; rewrite ?Ec, IH; reflexivity.
Qed.

Lemma headSlash_stripTrailingSlash (s : string) :
  headSlash s = true -> hasNonSlash s = true ->
  headSlash (stripTrailingSlash s) = true.
Proof.
  destruct s as [|c s]; [easy|]. cbn [headSlash hasNonSlash].
  intros Hc H. rewrite Hc in H. cbn in H.
  rewrite stripTrailingSlash_cons. destruct s; [discriminate | exact Hc].
Qed.

Lemma normalizePath_headSlash (p : string) :
  headSlash p = true -> hasNonSeparator p = true ->
  headSlash (normalizePath p) = true.
Proof.
  intros H1 H2. unfold normalizePath. apply headSlash_stripTrailingSlash.
  - rewrite headSlash_collapse. now apply headSlash_replaceBackslashes.
  - now rewrite hasNonSlash_collapseSlashes, hasNonSlash_replaceBackslashes.
Qed.

End Normalizer.

(** ** Forward mapping *)

Section Forward.

Lemma effectiveRoot_normalizePath (rootPath : string) :
  effectiveRoot rootPath = normalizePath rootPath.
Proof.
  unfold effectiveRoot. destruct (String.eqb_spec rootPath "/") as [->|];
    reflexivity.
Qed.

Lemma effectiveRoot_isNormal (rootPath : string) :
  isNormal (effectiveRoot rootPath) = true.
Proof. rewrite effectiveRoot_normalizePath. apply normalizePath_isNormal. Qed.

Lemma joinUnderRoot_append (r l : string) : joinUnderRoot r l = r ++ "/" ++ l.
Proof.
  unfold joinUnderRoot. destruct (String.eqb_spec r "") as [->|];
    reflexivity.
Qed.

Lemma applyPathMappings_scan (localRel rootPath : string)
  (mappings : option (list PathMapping)) :
  applyPathMappings localRel rootPath mappings
  = applyScan (normalizePath localRel) (effectiveRoot rootPath)
      (rulesOf mappings).
Proof. destruct mappings as [[|m ms]|]; reflexivity. Qed.

Lemma applyMapping_no_match (nl nroot : string) (m : PathMapping) :
  ruleMatches nl m = false -> applyMapping nl nroot m = None.
Proof.
  unfold ruleMatches, applyMapping. intros H.
  apply orb_false_elim in H as [H1 H2]. now rewrite H1, H2.
Qed.

Lemma applyMapping_match (nl nroot : string) (m : PathMapping) :
  ruleMatches nl m = true -> exists r, applyMapping nl nroot m = Some r.
Proof.
  unfold ruleMatches, applyMapping. intros H.
  destruct (String.eqb nl (normalizePath (local m))).
  - destruct (isRootPrefix _); eexists; reflexivity.
  - cbn in H. rewrite H. eexists; reflexivity.
Qed.

Lemma applyScan_skip (nl nroot : string) (pre rest : list PathMapping) :
  forallb (fun m => negb (ruleMatches nl m)) pre = true ->
  applyScan nl nroot (pre ++ rest)%list = applyScan nl nroot rest.
Proof.
  induction pre as [|m pre IH]; [reflexivity|].
  cbn [forallb app applyScan]. intros H.
  apply andb_true_iff in H as [Hm Hpre]. apply negb_true_iff in Hm.
  rewrite (applyMapping_no_match _ _ _ Hm). now apply IH.
Qed.

Lemma applyScan_first (nl nroot : string) (m : PathMapping)
  (rest : list PathMapping) (r : string) :
  applyMapping nl nroot m = Some r -> applyScan nl nroot (m :: rest) = r.
Proof. cbn [applyScan]. now intros ->. Qed.

Lemma headSlash_append (a b : string) :
  a <> "" -> headSlash (a ++ b) = headSlash a.
Proof. destruct a; [now intros [] | reflexivity]. Qed.

Lemma emptyOrAbsolute_nonempty (s : string) :
  emptyOrAbsolute s = true -> s <> "" -> headSlash s = true.
Proof.
  unfold emptyOrAbsolute. destruct (String.eqb_spec s ""); [easy|].
  now cbn.
Qed.

Lemma isRootPrefix_false (s : string) : isRootPrefix s = false -> s <> "".
Proof. intros H ->. discriminate. Qed.

Lemma isNormal_not_root_prefix (d r : string) :
  isNormal d = true -> r <> "" -> startsWith d r = true ->
  isRootPrefix d = false.
Proof.
  intros Hn Hr Hs. unfold isRootPrefix.
  destruct (String.eqb_spec d "") as [->|_].
  - destruct r; [now elim Hr | discriminate].
  - destruct (String.eqb_spec d "/") as [->|_]; [discriminate | reflexivity].
Qed.

Lemma headSlash_joinUnderRoot (r l : string) :
  emptyOrAbsolute r = true -> headSlash (joinUnderRoot r l) = true.
Proof.
  intros H. unfold joinUnderRoot.
  destruct (String.eqb_spec r "") as [->|N]; [reflexivity|].
  rewrite headSlash_append by assumption.
  now apply emptyOrAbsolute_nonempty.
Qed.

Lemma headSlash_applyMapping (nl nroot : string) (m : PathMapping)
  (r : string) :
  emptyOrAbsolute nroot = true ->
  emptyOrAbsolute (normalizePath (device m)) = true ->
  applyMapping nl nroot m = Some r -> headSlash r = true.
Proof.
  intros Hr Hd. unfold applyMapping.
  destruct (String.eqb nl (normalizePath (local m))).
  - destruct (isRootPrefix (normalizePath (device m))) eqn:E;
      intros [= <-]; [reflexivity|].
    apply emptyOrAbsolute_nonempty; [assumption|].
    now apply isRootPrefix_false.
  - destruct (startsWith nl (normalizePath (local m) ++ "/"));
      [|discriminate].
    intros [= <-]. rewrite headSlash_collapse.
    destruct (String.eqb_spec nroot "") as [->|N]; cbn [negb andb].
    + destruct (isRootPrefix (normalizePath (device m))) eqn:E;
        [reflexivity|].
      rewrite headSlash_append by now apply isRootPrefix_false.
      apply emptyOrAbsolute_nonempty; [assumption|].
      now apply isRootPrefix_false.
    + destruct (startsWith (normalizePath (device m)) nroot); cbn [negb].
      * destruct (isRootPrefix (normalizePath (device m))) eqn:E;
          [reflexivity|].
        rewrite headSlash_append by now apply isRootPrefix_false.
        apply emptyOrAbsolute_nonempty; [assumption|].
        now apply isRootPrefix_false.
      * destruct (isRootPrefix (normalizePath (device m)));
          rewrite headSlash_append by assumption;
          now apply emptyOrAbsolute_nonempty.
Qed.

End Forward.

(** ** Segments *)

Section Segments.

(** Collapsing the slashes and removing the trailing one keep the first
    segment and the non-empty ones among the others. *)
Lemma split_headSlash (s : string) :
  headSlash s = true -> exists t, split s = "" :: t.
Proof.
  destruct s as [|c s]; [discriminate|]. cbn [headSlash split].
  intros ->. eauto.
Qed.

Lemma split_collapseSlashes (s : string) :
  exists h t t',
    split s = h :: t /\ split (collapseSlashes s) = h :: t'
    /\ filter truthy t = filter truthy t'.
Proof.
  induction s as [|c s (h & t & t' & E1 & E2 & E3)];
    [now exists "", [], []|].
  rewrite collapseSlashes_cons. cbn [split]. rewrite E1.
  destruct (isSlash c) eqn:Ec.
  - destruct (headSlash s) eqn:Es.
    + destruct (split_headSlash s Es) as [t0 E0].
      rewrite E1 in E0. injection E0 as -> ->.
      exists "", ("" :: t0), t'. now rewrite E2.
    + cbn [split]. rewrite E2. cbn [isSlash slash Ascii.eqb].
      exists "", (h :: t), (h :: t'). repeat split.
      cbn [filter]. now rewrite E3.
  - cbn [split]. rewrite Ec, E2. now exists (String c h), t, t'.
Qed.

Lemma split_stripTrailingSlash (s : string) :
  exists h t t',
    split s = h :: t /\ split (stripTrailingSlash s) = h :: t'
    /\ filter truthy t = filter truthy t'.
Proof.
  induction s as [|c s (h & t & t' & E1 & E2 & E3)];
    [now exists "", [], []|].
  rewrite stripTrailingSlash_cons. destruct s as [|d s].
  - cbn [split]. destruct (isSlash c) eqn:Ec.
    + now exists "", [""], [].
    + cbn [split]. rewrite Ec. now exists (String c ""), [], [].
  - cbn [split] in *. rewrite E1, E2. destruct (isSlash c).
    + exists "", (h :: t), (h :: t'). repeat split.
      cbn [filter]. now rewrite E3.
    + now exists (String c h), t, t'.
Qed.

Lemma segments_normalizePath (p : string) :
  filter truthy (split (normalizePath p))
  = filter truthy (split (replaceBackslashes p)).
Proof.
  unfold normalizePath.
  destruct (split_collapseSlashes (replaceBackslashes p))
    as (h & t & t1 & E1 & E2 & E3).
  destruct (split_stripTrailingSlash (collapseSlashes (replaceBackslashes p)))
    as (h' & t1' & t2 & F1 & F2 & F3).
  rewrite E2 in F1. injection F1 as <- <-.
  rewrite E1, F2. cbn [filter]. now rewrite E3, F3.
Qed.

End Segments.

(** ** Statements about the normalizer *)

(** C8. Normalization is idempotent, [normalizePath (normalizePath p) =
    normalizePath p] for every string [p], and two spellings of one path,
    which differ only by backslashes written for slashes, duplicated
    slashes or a trailing slash, normalize to the same string, which is in
    canonical form. *)
Theorem normalizePath_idempotent_canonical :
  (forall p, normalizePath (normalizePath p) = normalizePath p)
  /\ (forall p q,
        pathVariant p q ->
        normalizePath p = normalizePath q
        /\ isNormal (normalizePath p) = true).
Proof.
  split.
  - intros p. apply normalizePath_fixed, normalizePath_isNormal.
  - intros p q H. split.
    + now apply normalizePath_variant.
    + apply normalizePath_isNormal.
Qed.

Lemma normalizePath_idempotent_canonical_witness :
  pathVariant "lib\sub//a.py/" "lib/sub/a.py"
  /\ normalizePath "lib\sub//a.py/" = normalizePath "lib/sub/a.py"
  /\ normalizePath "lib/sub/a.py" = "lib/sub/a.py".
Proof.
  assert (V : pathVariant "lib\sub//a.py/" "lib/sub/a.py").
  { apply variant_trans with "lib/sub//a.py/".
    - exact (variant_backslash "lib" "sub//a.py/").
    - apply variant_trans with "lib/sub/a.py/".
      + exact (variant_duplicate "lib/sub" "a.py/").
      + exact (variant_trailing "lib/sub/a.py"). }
  split; [exact V|]. split.
  - exact (proj1 (proj2 normalizePath_idempotent_canonical _ _ V)).
  - reflexivity.
Defined.

(** C9, the claim as stated fails: the root ["/"] begins with a slash and
    its normal form is the empty string. *)
Lemma normalizePath_root_loses_slash :
  headSlash "/" = true
  /\ normalizePath "/" = ""
  /\ ~ (forall p, headSlash p = true -> headSlash (normalizePath p) = true).
Proof.
  split; [reflexivity|]. split; [reflexivity|].
  intros H. specialize (H "/" eq_refl). discriminate H.
Qed.

(** C9, amended.  For every input that begins with ['/'] and has a
    character other than ['/'] and ['\'], the normalized result begins with
    ['/'].  For every input, the result has no backslash (backslashes have
    become slashes: replacing them beforehand changes nothing), no two
    slashes in a row and no slash in last position, and its non-empty
    segments are those of the input once its backslashes are slashes; the
    empty string normalizes to the empty string. *)
Theorem normalizePath_contract (p : string) :
  (headSlash p = true -> hasNonSeparator p = true ->
   headSlash (normalizePath p) = true)
  /\ hasBackslash (normalizePath p) = false
  /\ normalizePath (replaceBackslashes p) = normalizePath p
  /\ hasDoubleSlash (normalizePath p) = false
  /\ endsWithSlash (normalizePath p) = false
  /\ filter truthy (split (normalizePath p))
     = filter truthy (split (replaceBackslashes p))
  /\ normalizePath "" = "".
Proof.
  pose proof (proj1 (isNormal_parts _) (normalizePath_isNormal p))
    as (H1 & H2 & H3).
  repeat split; try assumption.
  - apply normalizePath_headSlash.
  - unfold normalizePath. f_equal. f_equal.
    apply replaceBackslashes_fixed, replaceBackslashes_clean.
  - apply segments_normalizePath.
Qed.

Lemma normalizePath_contract_witness :
  headSlash "/flash\\lib//" = true
  /\ hasNonSeparator "/flash\\lib//" = true
  /\ headSlash (normalizePath "/flash\\lib//") = true.
Proof.
  split; [reflexivity|]. split; [reflexivity|].
  apply (proj1 (normalizePath_contract "/flash\\lib//")); reflexivity.
Defined.

(** ** Statements about the forward mapping *)

(** C1, the claim as stated fails: a root that is not absolute gives a
    device path that is not absolute, and so does a rule whose device
    prefix is not absolute. *)
Lemma applyPathMappings_relative_result :
  applyPathMappings "a" "foo" (Some []) = "foo/a"
  /\ applyPathMappings "src/a.py" "/" (Some [mkPathMapping "src" "lib"])
     = "lib/a.py"
  /\ ~ (forall localRel rootPath mappings,
          headSlash (applyPathMappings localRel rootPath mappings) = true).
Proof.
  split; [reflexivity|]. split; [reflexivity|].
  intros H. specialize (H "a" "foo" (Some [])). discriminate H.
Qed.

(** C1, amended.  For every [localRel], every [rootPath] whose effective
    (normalized) root is empty or starts with ['/'], and every rule list,
    empty or absent included, in which the normalized device prefix of each
    rule is empty or starts with ['/'], the string returned by
    [applyPathMappings] starts with ['/']. *)
Theorem applyPathMappings_absolute (localRel rootPath : string)
  (mappings : option (list PathMapping)) :
  emptyOrAbsolute (effectiveRoot rootPath) = true ->
  forallb (fun m => emptyOrAbsolute (normalizePath (device m)))
    (rulesOf mappings) = true ->
  headSlash (applyPathMappings localRel rootPath mappings) = true.
Proof.
  intros Hr Hm. rewrite applyPathMappings_scan.
  induction (rulesOf mappings) as [|m ms IH]; cbn [applyScan].
  - now apply headSlash_joinUnderRoot.
  - cbn [forallb] in Hm. apply andb_true_iff in Hm as [Hd Hms].
    destruct (applyMapping _ _ m) as [r|] eqn:E; [|now apply IH].
    now apply (headSlash_applyMapping _ _ _ _ Hr Hd E).
Qed.

Lemma applyPathMappings_absolute_witness :
  applyPathMappings "lib/utils.py" "\flash/"
    (Some [mkPathMapping "src" "/"; mkPathMapping "lib/" "/lib/"])
  = "/flash/lib/utils.py"
  /\ headSlash
       (applyPathMappings "lib/utils.py" "\flash/"
          (Some [mkPathMapping "src" "/"; mkPathMapping "lib/" "/lib/"]))
     = true.
Proof.
  split; [reflexivity|].
  apply applyPathMappings_absolute; reflexivity.
Defined.

(** C4. Identity without rules: for every [localRel] and [rootPath],
    [applyPathMappings localRel rootPath []] is
    [normalizePath rootPath ++ "/" ++ normalizePath localRel] (and the same
    with the rules absent); when the effective root is empty, that is when
    [rootPath] is ["/"] or normalizes to the empty string, it is
    ["/" ++ normalizePath localRel]. *)
Theorem applyPathMappings_no_rules (localRel rootPath : string) :
  applyPathMappings localRel rootPath (Some [])
  = normalizePath rootPath ++ "/" ++ normalizePath localRel
  /\ applyPathMappings localRel rootPath None
     = normalizePath rootPath ++ "/" ++ normalizePath localRel
  /\ (rootPath = "/" \/ normalizePath rootPath = "" ->
      applyPathMappings localRel rootPath (Some [])
      = "/" ++ normalizePath localRel).
Proof.
  rewrite !applyPathMappings_scan. cbn [rulesOf applyScan].
  rewrite joinUnderRoot_append, effectiveRoot_normalizePath.
  repeat split.
  intros [->| ->]; reflexivity.
Qed.

Lemma applyPathMappings_no_rules_witness :
  applyPathMappings "a\b.py" "/" (Some []) = "/a/b.py"
  /\ applyPathMappings "a\b.py" "//" (Some []) = "/a/b.py"
  /\ applyPathMappings "a\b.py" "/flash/" (Some []) = "/flash/a/b.py".
Proof.
  split; [|split].
  - exact (proj2 (proj2 (applyPathMappings_no_rules "a\b.py" "/"))
             (or_introl eq_refl)).
  - exact (proj2 (proj2 (applyPathMappings_no_rules "a\b.py" "//"))
             (or_intror eq_refl)).
  - exact (proj1 (applyPathMappings_no_rules "a\b.py" "/flash/")).
Defined.

(** C3. First match wins: when no rule before [first] matches [localRel]
    and [first] does, then whatever follows, a [second] matching rule
    included, the result of [applyPathMappings] is the one the rule [first]
    gives by itself, which is what the body of the scan returns at [first];
    nothing of the later rules enters it. *)
Theorem applyPathMappings_first_match_wins (localRel rootPath : string)
  (pre mid post : list PathMapping) (first second : PathMapping) :
  forallb (fun m => negb (ruleMatches (normalizePath localRel) m)) pre
  = true ->
  ruleMatches (normalizePath localRel) first = true ->
  ruleMatches (normalizePath localRel) second = true ->
  applyPathMappings localRel rootPath
    (Some (pre ++ first :: mid ++ second :: post)%list)
  = applyPathMappings localRel rootPath (Some [first])
  /\ applyMapping (normalizePath localRel) (effectiveRoot rootPath) first
     = Some (applyPathMappings localRel rootPath (Some [first])).
Proof.
  intros Hpre Hfirst _. rewrite !applyPathMappings_scan. cbn [rulesOf].
  rewrite (applyScan_skip _ _ _ _ Hpre).
  destruct (applyMapping_match _ (effectiveRoot rootPath) _ Hfirst)
    as [r Hr].
  rewrite !(applyScan_first _ _ _ _ _ Hr). now split.
Qed.

Lemma applyPathMappings_first_match_wins_witness :
  applyPathMappings "src/lib/a.py" "/"
    (Some [mkPathMapping "test" "/t"; mkPathMapping "src" "/";
           mkPathMapping "doc" "/d"; mkPathMapping "src/lib" "/x"])
  = "/lib/a.py"
  /\ applyPathMappings "src/lib/a.py" "/"
       (Some [mkPathMapping "src/lib" "/x"])
     = "/x/a.py".
Proof.
  split; [|reflexivity].
  refine (eq_trans
            (proj1 (applyPathMappings_first_match_wins "src/lib/a.py" "/"
                      [mkPathMapping "test" "/t"] [mkPathMapping "doc" "/d"]
                      [] (mkPathMapping "src" "/")
                      (mkPathMapping "src/lib" "/x") _ _ _)) _);
    reflexivity.
Defined.

(** C5. Round trip for a root-relative rule: with the one rule
    [{local: "src", device: "/"}] and the root ["/"],
    [applyPathMappings "src/main.py"] is ["/main.py"] and
    [reversePathMappings "/main.py"] is ["src/main.py"]. *)
Theorem root_rule_round_trip :
  applyPathMappings "src/main.py" "/" (Some [mkPathMapping "src" "/"])
  = "/main.py"
  /\ reversePathMappings "/main.py" "/" (Some [mkPathMapping "src" "/"])
     = "src/main.py".
Proof. split; reflexivity. Qed.

(** C7. Forward prefix match under a non-empty effective root.  Let the
    first matching rule match [localRel] as a prefix, with [relativePart]
    the remainder, and let the composed device path be the device prefix,
    [relativePart] after a slash (just ["/" ++ relativePart] for a device
    prefix that is the device root).  If the normalized device prefix does
    not start with the normalized root, the result is the root, a slash and
    the composed path; if it does, the result is the device prefix, a slash
    and [relativePart], without the root.  In both cases the runs of
    slashes are collapsed, so the result has no two slashes in a row. *)
Theorem applyPathMappings_root_prefixing (localRel rootPath : string)
  (pre post : list PathMapping) (m : PathMapping) :
  let nl := normalizePath localRel in
  let nroot := effectiveRoot rootPath in
  let nlp := normalizePath (local m) in
  let ndp := normalizePath (device m) in
  let relativePart := slice nl (String.length nlp + 1) in
  let composed :=
    if isRootPrefix ndp then "/" ++ relativePart
    else ndp ++ "/" ++ relativePart in
  let result :=
    applyPathMappings localRel rootPath (Some (pre ++ m :: post)%list) in
  nroot <> "" ->
  forallb (fun m' => negb (ruleMatches nl m')) pre = true ->
  nl <> nlp ->
  startsWith nl (nlp ++ "/") = true ->
  (startsWith ndp nroot = false ->
   result = collapseSlashes (nroot ++ "/" ++ composed))
  /\ (startsWith ndp nroot = true ->
      result = collapseSlashes (ndp ++ "/" ++ relativePart))
  /\ hasDoubleSlash result = false.
Proof.
  intros nl nroot nlp ndp relativePart composed result Hroot Hpre Hne Hpx.
  assert (E : result
              = collapseSlashes
                  (if startsWith ndp nroot then ndp ++ "/" ++ relativePart
                   else nroot ++ "/" ++ composed)).
  { subst result. rewrite applyPathMappings_scan. cbn [rulesOf].
    rewrite (applyScan_skip _ _ _ _ Hpre). cbn [applyScan].
    unfold applyMapping. fold nl nroot nlp ndp.
    apply String.eqb_neq in Hne. rewrite Hne, Hpx.
    fold relativePart. apply String.eqb_neq in Hroot. rewrite Hroot.
    cbn [negb andb]. apply String.eqb_neq in Hroot.
    destruct (startsWith ndp nroot) eqn:Es; cbn [negb].
    - rewrite (isNormal_not_root_prefix ndp nroot); auto.
      apply normalizePath_isNormal.
    - subst composed. destruct (isRootPrefix ndp); [|reflexivity].
      symmetry.
      exact (collapseSlashes_duplicate nroot relativePart). }
  rewrite E. repeat split.
  - now intros ->.
  - now intros ->.
  - apply collapseSlashes_clean.
Qed.

Lemma applyPathMappings_root_prefixing_witness :
  applyPathMappings "lib/utils.py" "/flash"
    (Some [mkPathMapping "src" "/"; mkPathMapping "lib" "/lib"])
  = "/flash/lib/utils.py"
  /\ applyPathMappings "lib/utils.py" "/flash"
       (Some [mkPathMapping "src" "/"; mkPathMapping "lib" "/flash/lib"])
     = "/flash/lib/utils.py"
  /\ applyPathMappings "src/main.py" "/flash"
       (Some [mkPathMapping "src" "/"; mkPathMapping "lib" "/flash/lib"])
     = "/flash/main.py".
Proof.
  split; [|split].
  - refine (eq_trans
              (proj1 (applyPathMappings_root_prefixing "lib/utils.py"
                        "/flash" [mkPathMapping "src" "/"] []
                        (mkPathMapping "lib" "/lib") _ _ _ _) _) _);
      (reflexivity || discriminate).
  - refine (eq_trans
              (proj1 (proj2 (applyPathMappings_root_prefixing "lib/utils.py"
                               "/flash" [mkPathMapping "src" "/"] []
                               (mkPathMapping "lib" "/flash/lib") _ _ _ _))
                 _) _);
      (reflexivity || discriminate).
  - refine (eq_trans
              (proj1 (applyPathMappings_root_prefixing "src/main.py"
                        "/flash" [] [mkPathMapping "lib" "/flash/lib"]
                        (mkPathMapping "src" "/") _ _ _ _) _) _);
      (reflexivity || discriminate).
Defined.

(** ** Reverse mapping *)

Section Reverse.

Lemma reversePathMappings_scan (devicePath rootPath : string)
  (mappings : option (list PathMapping)) :
  reversePathMappings devicePath rootPath mappings
  = reverseScan
      (stripRoot (normalizePath devicePath) (effectiveRoot rootPath))
      (rulesOf mappings).
Proof. destruct mappings as [[|m ms]|]; reflexivity. Qed.

Lemma effectiveDevicePrefix_not_slash (m : PathMapping) :
  String.eqb (effectiveDevicePrefix m) "/" = false.
Proof.
  unfold effectiveDevicePrefix. rewrite startsWith_slash.
  pose proof (normalizePath_isNormal (device m)) as H.
  apply isNormal_parts in H as (_ & H2 & H3).
  destruct (normalizePath (device m)) as [|c s]; [reflexivity|].
  destruct (isSlash c) eqn:Ec.
  - cbn [slice]. destruct (String.eqb_spec s "/") as [->|]; [|reflexivity].
    rewrite hasDoubleSlash_cons, Ec in H2. discriminate H2.
  - destruct (String.eqb_spec (String c s) "/") as [E|]; [|reflexivity].
    injection E as -> ->. discriminate Ec.
Qed.

Lemma reverseMapping_no_match (rel : string) (m : PathMapping) :
  reverseRuleApplies rel m = false -> reverseMapping rel m = None.
Proof.
  unfold reverseRuleApplies, reverseMapping, isRootPrefix. intros H.
  apply orb_false_elim in H as [H H3]. apply orb_false_elim in H as [H1 H2].
  now rewrite H1, effectiveDevicePrefix_not_slash, H2, H3.
Qed.

Lemma reverseScan_skip (rel : string) (pre rest : list PathMapping) :
  forallb (fun m => negb (reverseRuleApplies rel m)) pre = true ->
  reverseScan rel (pre ++ rest)%list = reverseScan rel rest.
Proof.
  induction pre as [|m pre IH]; [reflexivity|].
  cbn [forallb app reverseScan]. intros H.
  apply andb_true_iff in H as [Hm Hpre]. apply negb_true_iff in Hm.
  rewrite (reverseMapping_no_match _ _ Hm). now apply IH.
Qed.

(** Joining two normal forms with a slash. *)

Lemma hasBackslash_append (a b : string) :
  hasBackslash (a ++ b) = hasBackslash a || hasBackslash b.
Proof.
  induction a as [|c a IH]; [reflexivity|].
  cbn [append hasBackslash]. now rewrite IH, orb_assoc.
Qed.

Lemma hasDoubleSlash_join (a l : string) :
  hasDoubleSlash a = false -> endsWithSlash a = false ->
  headSlash l = false -> hasDoubleSlash l = false ->
  hasDoubleSlash (a ++ String slash l) = false.
Proof.
  intros Ha Hea Hl Hdl. induction a as [|c a IH].
  - cbn [append]. now rewrite hasDoubleSlash_cons, Hl, Hdl.
  - cbn [append]. rewrite hasDoubleSlash_cons in Ha |- *.
    apply orb_false_elim in Ha as [Hc Ha].
    rewrite endsWithSlash_cons in Hea. destruct a as [|d a].
    + cbn [append headSlash]. rewrite Hea. cbn [andb orb].
      now rewrite hasDoubleSlash_cons, Hl, Hdl.
    + rewrite (IH Ha Hea), orb_false_r. exact Hc.
Qed.

Lemma endsWithSlash_join (a l : string) :
  l <> "" -> endsWithSlash (a ++ String slash l) = endsWithSlash l.
Proof.
  intros Hl. induction a as [|c a IH].
  - cbn [append]. rewrite endsWithSlash_cons. now destruct l.
  - cbn [append]. rewrite endsWithSlash_cons.
    destruct (a ++ String slash l) eqn:E; [|exact IH].
    now apply append_nonempty_r in E.
Qed.

Lemma isNormal_join (a l : string) :
  isNormal a = true -> isNormal l = true -> l <> "" ->
  headSlash l = false -> isNormal (a ++ String slash l) = true.
Proof.
  intros Ha Hl Hne Hh.
  apply isNormal_parts in Ha as (A1 & A2 & A3).
  apply isNormal_parts in Hl as (L1 & L2 & L3).
  apply isNormal_parts. repeat split.
  - rewrite hasBackslash_append. cbn [hasBackslash]. now rewrite A1, L1.
  - now apply hasDoubleSlash_join.
  - now rewrite endsWithSlash_join.
Qed.

Lemma stripRoot_join (r l : string) :
  stripRoot (joinUnderRoot r l) r = l.
Proof.
  unfold joinUnderRoot, stripRoot.
  destruct (String.eqb_spec r "") as [->|N].
  - cbn [negb andb]. now rewrite startsWith_slash.
  - cbn [negb andb].
    replace (r ++ "/" ++ l) with ((r ++ "/") ++ l)
      by now rewrite append_assoc.
    rewrite startsWith_append.
    replace (String.length r + 1) with (String.length (r ++ "/"))
      by now rewrite length_append.
    apply slice_append.
Qed.

Lemma reverse_of_join (r l : string) :
  isNormal r = true -> isNormal l = true -> headSlash l = false ->
  l <> "" \/ r = "" ->
  stripRoot (normalizePath (joinUnderRoot r l)) r = l.
Proof.
  intros Hr Hl Hh Hc.
  destruct (string_dec l "") as [->|Hne].
  - destruct Hc as [Hc| ->]; [now elim Hc | reflexivity].
  - rewrite normalizePath_fixed; [apply stripRoot_join|].
    rewrite joinUnderRoot_append. now apply isNormal_join.
Qed.

End Reverse.

(** ** Statements about the reverse mapping *)

(** C2. [reversePathMappings] scans the rules in order; when it reaches the
    first rule whose effective device prefix (the normalized device prefix
    without its leading slash) is empty, that is when no rule before it
    returned, it returns the normalized local prefix of that rule, a slash
    and the root-stripped relative device path, whatever rules come after
    it and whether or not the device path matches one of them. *)
Theorem reversePathMappings_root_rule (devicePath rootPath : string)
  (pre post : list PathMapping) (m : PathMapping) :
  let relativeDevicePath :=
    stripRoot (normalizePath devicePath) (effectiveRoot rootPath) in
  forallb (fun m' => negb (reverseRuleApplies relativeDevicePath m')) pre
  = true ->
  effectiveDevicePrefix m = "" ->
  reversePathMappings devicePath rootPath (Some (pre ++ m :: post)%list)
  = normalizePath (local m) ++ "/" ++ relativeDevicePath.
Proof.
  intros rel Hpre Hm. rewrite reversePathMappings_scan. cbn [rulesOf].
  fold rel. rewrite (reverseScan_skip _ _ _ Hpre). cbn [reverseScan].
  unfold reverseMapping. now rewrite Hm.
Qed.

Lemma reversePathMappings_root_rule_witness :
  reversePathMappings "/lib/utils.py" "/"
    (Some [mkPathMapping "doc" "/d"; mkPathMapping "src" "/";
           mkPathMapping "lib" "/lib"])
  = "src/lib/utils.py"
  /\ reversePathMappings "/lib/utils.py" "/"
       (Some [mkPathMapping "lib" "/lib"])
     = "lib/utils.py".
Proof.
  split; [|reflexivity].
  refine (eq_trans
            (reversePathMappings_root_rule "/lib/utils.py" "/"
               [mkPathMapping "doc" "/d"] [mkPathMapping "lib" "/lib"]
               (mkPathMapping "src" "/") _ _) _);
    reflexivity.
Defined.

(** C10, the claim as stated fails: the empty local path under a non-empty
    root comes back as the root without its slash. *)
Lemma no_rules_round_trip_empty_path :
  headSlash (normalizePath "") = false
  /\ applyPathMappings "" "/flash" (Some []) = "/flash/"
  /\ reversePathMappings (applyPathMappings "" "/flash" (Some [])) "/flash"
       (Some [])
     = "flash"
  /\ ~ (forall localRel rootPath,
          headSlash (normalizePath localRel) = false ->
          reversePathMappings
            (applyPathMappings localRel rootPath (Some [])) rootPath
            (Some [])
          = normalizePath localRel).
Proof.
  repeat (split; [reflexivity|]).
  intros H. specialize (H "" "/flash" eq_refl). discriminate H.
Qed.

(** C10, amended.  For every [localRel] whose normalized form does not
    begin with ['/'] and every [rootPath], provided the normalized
    [localRel] is not empty or the effective root is, the round trip
    without rules is the identity up to normalization:
    [reversePathMappings (applyPathMappings localRel rootPath []) rootPath
    []] is [normalizePath localRel], and the same with the rules absent. *)
Theorem no_rules_round_trip (localRel rootPath : string) :
  headSlash (normalizePath localRel) = false ->
  normalizePath localRel <> "" \/ effectiveRoot rootPath = "" ->
  reversePathMappings (applyPathMappings localRel rootPath (Some []))
    rootPath (Some [])
  = normalizePath localRel
  /\ reversePathMappings (applyPathMappings localRel rootPath None)
       rootPath None
     = normalizePath localRel.
Proof.
  intros Hh Hc.
  rewrite !reversePathMappings_scan, !applyPathMappings_scan.
  cbn [rulesOf applyScan reverseScan].
  split; apply reverse_of_join; auto using normalizePath_isNormal,
    effectiveRoot_isNormal.
Qed.

Lemma no_rules_round_trip_witness :
  reversePathMappings
    (applyPathMappings "src\\lib//a.py" "/flash/" (Some [])) "/flash/"
    (Some [])
  = "src/lib/a.py"
  /\ reversePathMappings (applyPathMappings "" "/" None) "/" None = "".
Proof.
  split.
  - refine (eq_trans
              (proj1 (no_rules_round_trip "src\\lib//a.py" "/flash/" _ _))
              _);
      [reflexivity | left; discriminate | reflexivity].
  - refine (eq_trans (proj2 (no_rules_round_trip "" "/" _ _)) _);
      [reflexivity | right; reflexivity | reflexivity].
Defined.

(** ** Directory derivation *)

Section Dirname.

Lemma dirnameEnd_found (path : string) (i : nat) (b : bool) (e : nat) :
  dirnameEnd path i b = Some e ->
  1 <= e <= i
  /\ slashAt path e = true
  /\ (b = true -> exists j, e < j <= i /\ slashAt path j = false).
Proof.
  revert b. induction i as [|i IH]; intros b; [discriminate|].
  cbn [dirnameEnd]. destruct (slashAt path (S i)) eqn:Es.
  - destruct b; cbn [negb].
    + intros H. apply IH in H as (Hb & Hs & Hj). repeat split; try lia;
        [assumption|].
      intros _. destruct (Hj eq_refl) as (j & Hj1 & Hj2).
      exists j. split; [lia | assumption].
    + intros [= <-]. repeat split; try lia; try assumption; discriminate.
  - intros H. apply IH in H as (Hb & Hs & _). repeat split; try lia;
      [assumption|].
    intros _. exists (S i). split; [lia | assumption].
Qed.

Lemma get_slice (s : string) (e k : nat) :
  String.get k (slice s e) = String.get (e + k) s.
Proof.
  revert s. induction e as [|e IH]; intros s; [reflexivity|].
  destruct s as [|c s]; [now destruct k | apply IH].
Qed.

Lemma get_in_range (s : string) (k : nat) :
  k < String.length s -> exists c, String.get k s = Some c.
Proof.
  revert k. induction s as [|c s IH]; intros k; cbn [String.length];
    [lia|].
  destruct k as [|k]; [now exists c|]. intros H. apply IH. lia.
Qed.

Lemma hasNonSlash_get (s : string) (k : nat) (c : ascii) :
  String.get k s = Some c -> isSlash c = false -> hasNonSlash s = true.
Proof.
  revert k. induction s as [|d s IH]; intros k; [discriminate|].
  destruct k as [|k]; cbn [String.get hasNonSlash].
  - intros [= ->] ->. reflexivity.
  - intros H1 H2. rewrite (IH _ H1 H2). apply orb_true_r.
Qed.

(** The shape of a path whose [dirname] is not one of the two ends ["/"]
    and ["."]: a slash at some index [e >= 1] is followed by a part with a
    code unit that is not a slash, and the result is the part before [e],
    or ["//"] when that part is the single slash of the root. *)
Lemma dirname_cases (p : string) :
  belowRoot (dirname p) = true ->
  exists e rest,
    1 <= e /\ e < String.length p
    /\ p = sliceTo p e ++ String slash rest
    /\ hasNonSlash rest = true
    /\ (dirname p = "//" \/ dirname p = sliceTo p e).
Proof.
  unfold dirname. destruct (Nat.eqb (String.length p) 0) eqn:El;
    [discriminate|].
  apply Nat.eqb_neq in El.
  destruct (dirnameEnd p (String.length p - 1) true) as [e|] eqn:Ee;
    [|destruct (slashAt p 0); discriminate].
  intros _. apply dirnameEnd_found in Ee as (Hb & Hs & Hj).
  destruct (Hj eq_refl) as (j & Hj1 & Hj2).
  assert (Hrest : exists rest, slice p e = String slash rest
                               /\ hasNonSlash rest = true).
  { unfold slashAt in Hs, Hj2.
    destruct (get_in_range p j ltac:(lia)) as [cj Hcj].
    rewrite Hcj in Hj2.
    replace j with (e + S (j - e - 1)) in Hcj by lia.
    rewrite <- get_slice in Hcj.
    replace e with (e + 0) in Hs by lia. rewrite <- get_slice in Hs.
    destruct (slice p e) as [|c rest]; [discriminate|].
    cbn [String.get] in Hs, Hcj. apply isSlash_true in Hs. subst c.
    exists rest. split; [reflexivity|].
    exact (hasNonSlash_get _ _ _ Hcj Hj2). }
  destruct Hrest as (rest & Hr1 & Hr2).
  exists e, rest. repeat split; try lia.
  - rewrite <- Hr1. apply sliceTo_slice.
  - assumption.
  - destruct (slashAt p 0 && Nat.eqb e 1); [now left | now right].
Qed.

Lemma hasNonSlash_length (s : string) :
  hasNonSlash s = true -> 1 <= String.length s.
Proof. destruct s; [discriminate | cbn; lia]. Qed.

Lemma dirname_shorter (p : string) :
  belowRoot (dirname p) = true ->
  String.length (dirname p) < String.length p.
Proof.
  intros H. destruct (dirname_cases p H) as (e & rest & H1 & H2 & H3 & H4 & H5).
  destruct H5 as [-> | ->].
  - apply hasNonSlash_length in H4. rewrite H3, length_append.
    rewrite length_sliceTo by lia. cbn [String.length]. lia.
  - rewrite length_sliceTo by lia. exact H2.
Qed.

Lemma dirname_end (p : string) : belowRoot p = false -> dirname p = p.
Proof.
  unfold belowRoot. intros H. apply andb_false_iff in H as [H|H];
    apply negb_false_iff, String.eqb_eq in H; now subst p.
Qed.

Lemma dirnameIter_end (k : nat) (p : string) :
  belowRoot p = false -> dirnameIter k p = p.
Proof.
  intros H. induction k as [|k IH]; [reflexivity|].
  cbn [dirnameIter]. now rewrite (dirname_end p H).
Qed.

(** Depth. *)

Lemma split_cons_form (s : string) : exists h t, split s = h :: t.
Proof.
  induction s as [|c s (h & t & E)]; [now exists "", []|].
  cbn [split]. rewrite E. destruct (isSlash c); eauto.
Qed.

Lemma split_join (a b : string) :
  split (a ++ String slash b) = (split a ++ split b)%list.
Proof.
  induction a as [|c a IH]; [reflexivity|].
  cbn [append split]. rewrite IH.
  destruct (isSlash c); [reflexivity|].
  destruct (split_cons_form a) as (h & t & E). now rewrite E.
Qed.

Lemma depth_join (a b : string) :
  depth (a ++ String slash b) = depth a + depth b.
Proof.
  unfold depth. now rewrite split_join, filter_app, length_app.
Qed.

Lemma depth_positive (s : string) : hasNonSlash s = true -> 1 <= depth s.
Proof.
  unfold depth. induction s as [|c s IH]; [discriminate|].
  cbn [hasNonSlash split]. destruct (isSlash c); cbn [negb orb].
  - exact IH.
  - intros _. destruct (split_cons_form s) as (h & t & E). rewrite E.
    cbn. lia.
Qed.

Lemma dirname_depth (p : string) :
  belowRoot (dirname p) = true -> depth (dirname p) < depth p.
Proof.
  intros H. destruct (dirname_cases p H) as (e & rest & _ & _ & H3 & H4 & H5).
  apply depth_positive in H4.
  assert (Hp : depth p = depth (sliceTo p e) + depth rest)
    by (rewrite H3 at 1; apply depth_join).
  destruct H5 as [-> | ->]; [|lia].
  change (depth "//") with 0. lia.
Qed.

Lemma dirnameIter_depth (k : nat) (p : string) :
  belowRoot (dirnameIter (S k) p) = true ->
  depth (dirnameIter (S k) p) < depth p.
Proof.
  revert p. induction k as [|k IH]; intros p H.
  - now apply dirname_depth.
  - destruct (belowRoot (dirname p)) eqn:E.
    + apply dirname_depth in E. specialize (IH (dirname p) H).
      cbn [dirnameIter] in IH |- *. lia.
    + cbn [dirnameIter] in H.
      change (belowRoot (dirnameIter (S k) (dirname p)) = true) in H.
      rewrite (dirnameIter_end _ _ E) in H. congruence.
Qed.

End Dirname.

Section Directories.

Variable rootPath : string.
Variable mappings : option (list PathMapping).

Lemma In_setAdd (x d : string) (l : list string) :
  In d (setAdd x l) <-> d = x \/ In d l.
Proof.
  unfold setAdd. destruct (existsb (String.eqb x) l) eqn:E.
  - split; [now right|]. intros [->|H]; [|assumption].
    apply existsb_exists in E as (y & Hy & Hxy).
    apply String.eqb_eq in Hxy. now subst y.
  - rewrite in_app_iff. cbn [In]. split.
    + intros [H|[H|[]]]; [now right | now left].
    + intros [H|H]; [right; now left | now left].
Qed.

Lemma NoDup_setAdd (x : string) (l : list string) :
  NoDup l -> NoDup (setAdd x l).
Proof.
  intros H. unfold setAdd. destruct (existsb (String.eqb x) l) eqn:E;
    [assumption|].
  apply NoDup_app; [assumption | repeat constructor; easy |].
  intros a Ha [<-|[]].
  assert (T : existsb (String.eqb x) l = true); [|congruence].
  apply existsb_exists. exists x. split; [assumption|].
  apply String.eqb_refl.
Qed.

(** The walk towards the root terminates within the fuel it is given and
    adds to the set the directories it goes through. *)
Lemma walkUp_spec (fuel : nat) (currentDir : string)
  (directories : list string) :
  (belowRoot currentDir = true -> String.length currentDir < fuel) ->
  NoDup directories ->
  exists directories',
    walkUp fuel currentDir directories = Some directories'
    /\ NoDup directories'
    /\ forall d,
         In d directories'
         <-> In d directories
             \/ (belowRoot d = true
                 /\ exists k, dirnameIter k currentDir = d).
Proof.
  revert currentDir directories.
  assert (Stop : forall c dirs d,
             belowRoot c = false ->
             In d dirs
             <-> In d dirs
                 \/ (belowRoot d = true /\ exists k, dirnameIter k c = d)).
  { intros c dirs d E. split; [now left|].
    intros [H|(Hd & k & Hk)]; [assumption|].
    rewrite (dirnameIter_end _ _ E) in Hk. congruence. }
  induction fuel as [|fuel IH]; intros c dirs Hlen Hnd; cbn [walkUp];
    destruct (belowRoot c) eqn:E.
  - specialize (Hlen eq_refl). lia.
  - exists dirs. repeat split; try assumption; now apply Stop.
  - destruct (IH (dirname c) (setAdd c dirs)) as (dirs' & Hw & Hnd' & Hin).
    + intros H. apply dirname_shorter in H. specialize (Hlen eq_refl). lia.
    + now apply NoDup_setAdd.
    + exists dirs'. repeat split; try assumption.
      * intros H. apply Hin in H as [H|(Hd & k & Hk)].
        -- apply In_setAdd in H as [->|H]; [|now left].
           right. split; [assumption|]. now exists 0.
        -- right. split; [assumption|]. now exists (S k).
      * intros [H|(Hd & k & Hk)]; apply Hin.
        -- left. apply In_setAdd. now right.
        -- destruct k as [|k].
           ++ left. apply In_setAdd. now left.
           ++ right. split; [assumption|]. now exists k.
  - exists dirs. repeat split; try assumption; now apply Stop.
Qed.

Lemma collectDirectories_spec (localFiles : list string)
  (directories : list string) :
  NoDup directories ->
  exists directories',
    collectDirectories localFiles rootPath mappings directories
    = Some directories'
    /\ NoDup directories'
    /\ forall d,
         In d directories'
         <-> In d directories
             \/ (belowRoot d = true
                 /\ exists f,
                      In f localFiles
                      /\ strictAncestor d
                           (applyPathMappings f rootPath mappings)).
Proof.
  revert directories.
  induction localFiles as [|f files IH]; intros dirs Hnd;
    cbn [collectDirectories].
  - exists dirs. repeat split; try assumption; [now left|].
    now intros [H|(_ & f & [] & _)].
  - set (dp := applyPathMappings f rootPath mappings).
    destruct (walkUp_spec (S (String.length (dirname dp))) (dirname dp) dirs)
      as (dirs1 & Hw & Hnd1 & Hin1); [lia | assumption |].
    rewrite Hw.
    destruct (IH dirs1 Hnd1) as (dirs' & Hc & Hnd' & Hin).
    exists dirs'. repeat split; try assumption.
    + intros H. apply Hin in H as [H|(Hd & f' & Hf' & Ha)].
      * apply Hin1 in H as [H|(Hd & k & Hk)]; [now left|].
        right. split; [assumption|]. exists f. split; [now left|].
        now exists k.
      * right. split; [assumption|]. exists f'. split; [now right|].
        assumption.
    + intros [H|(Hd & f' & [<-|Hf'] & Ha)]; apply Hin.
      * left. apply Hin1. now left.
      * left. apply Hin1. right. split; [assumption|].
        destruct Ha as [k Hk]. now exists k.
      * right. split; [assumption|]. now exists f'.
Qed.

End Directories.

Section Sorting.

Lemma byDepth_le (a b : string) :
  (byDepth a b <=? 0)%Z = Nat.leb (depth a) (depth b).
Proof.
  unfold byDepth. destruct (Nat.leb_spec (depth a) (depth b));
    [apply Z.leb_le | apply Z.leb_gt]; lia.
Qed.

Lemma insertSorted_perm (cmp : string -> string -> Z) (x : string)
  (l : list string) :
  Permutation (x :: l) (insertSorted cmp x l).
Proof.
  induction l as [|y l IH]; cbn [insertSorted]; [reflexivity|].
  destruct (cmp x y <=? 0)%Z; [reflexivity|].
  rewrite perm_swap. now apply perm_skip.
Qed.

Lemma arraySort_perm (cmp : string -> string -> Z) (l : list string) :
  Permutation l (arraySort cmp l).
Proof.
  induction l as [|x l IH]; [reflexivity|].
  cbn [arraySort fold_right]. rewrite <- insertSorted_perm.
  now apply perm_skip.
Qed.

Lemma insertSorted_sorted (x : string) (l : list string) :
  sortedByDepth l -> sortedByDepth (insertSorted byDepth x l).
Proof.
  unfold sortedByDepth.
  induction l as [|y l IH]; intros H; cbn [insertSorted].
  - repeat constructor.
  - apply StronglySorted_inv in H as [Hl Hy].
    rewrite byDepth_le. destruct (Nat.leb_spec (depth x) (depth y)).
    + constructor; [now constructor|].
      constructor; [assumption|].
      eapply Forall_impl; [|exact Hy]. cbn. intros; lia.
    + constructor; [now apply IH|].
      rewrite <- insertSorted_perm. constructor; [lia | assumption].
Qed.

Lemma arraySort_sorted (l : list string) :
  sortedByDepth (arraySort byDepth l).
Proof.
  induction l as [|x l IH]; [constructor|].
  now apply insertSorted_sorted.
Qed.

Lemma sorted_precedes (a b : string) (l : list string) :
  sortedByDepth l -> In a l -> In b l -> depth a < depth b ->
  precedes a b l.
Proof.
  unfold sortedByDepth. intros Hs Ha Hb Hd.
  induction Hs as [|x l Hl IH Hx].
  - destruct Ha.
  - rewrite Forall_forall in Hx. destruct Hb as [<-|Hb].
    + destruct Ha as [->|Ha]; [lia|]. apply Hx in Ha. lia.
    + destruct Ha as [->|Ha].
      * apply in_split in Hb as (l2 & l3 & ->). now exists [], l2, l3.
      * destruct (IH Ha Hb) as (l1 & l2 & l3 & ->).
        now exists (x :: l1), l2, l3.
Qed.

End Sorting.

(** ** Statement about the directory derivation *)

(** C6. For every list of local files, root and rules,
    [getAllMappedDirectories] returns a list [dirs] which has no
    repetition; whose elements are the strict ancestor directories of the
    mapped device paths of the files, that is the directories reached from
    a device path by taking the parent once or more, short of the root
    ["/"] (and of the ["."] by which [dirname] tells that a relative path
    has no directory left); which is sorted by ascending depth, the number
    of non-empty segments; and in which every directory comes before its
    descendants.  For the files ["a/b/c.py"] and ["a/d.py"] without rules
    under the root ["/"] it is [["/a"; "/a/b"]]. *)
Theorem getAllMappedDirectories_ancestors_by_depth
  (localFiles : list string) (rootPath : string)
  (mappings : option (list PathMapping)) :
  (exists dirs,
     getAllMappedDirectories localFiles rootPath mappings = Some dirs
     /\ NoDup dirs
     /\ (forall d,
           In d dirs
           <-> belowRoot d = true
               /\ exists f,
                    In f localFiles
                    /\ strictAncestor d
                         (applyPathMappings f rootPath mappings))
     /\ sortedByDepth dirs
     /\ (forall a b,
           In a dirs -> In b dirs -> strictAncestor a b ->
           precedes a b dirs))
  /\ getAllMappedDirectories ["a/b/c.py"; "a/d.py"] "/" (Some [])
     = Some ["/a"; "/a/b"].
Proof.
  split; [|reflexivity].
  unfold getAllMappedDirectories.
  destruct (collectDirectories_spec rootPath mappings localFiles []
              (NoDup_nil _)) as (set & Hc & Hnd & Hin).
  rewrite Hc. exists (arraySort byDepth set).
  pose proof (arraySort_perm byDepth set) as Hp.
  assert (Hmem : forall d,
             In d (arraySort byDepth set)
             <-> belowRoot d = true
                 /\ exists f,
                      In f localFiles
                      /\ strictAncestor d
                           (applyPathMappings f rootPath mappings)).
  { intros d. split.
    - intros H. apply (Permutation_in _ (Permutation_sym Hp)) in H.
      apply Hin in H as [[]|H]. exact H.
    - intros H. apply (Permutation_in _ Hp). apply Hin. now right. }
  split; [reflexivity|]. split; [|split; [|split]].
  - exact (Permutation_NoDup Hp Hnd).
  - exact Hmem.
  - apply arraySort_sorted.
  - intros a b Ha Hb [k Hk].
    apply sorted_precedes; try assumption; [apply arraySort_sorted|].
    apply Hmem in Ha as [Ha _]. subst a. now apply dirnameIter_depth.
Qed.

Lemma getAllMappedDirectories_ancestors_by_depth_witness :
  exists dirs,
    getAllMappedDirectories ["lib/net/http.py"; "lib/util.py"] "/flash"
      (Some [mkPathMapping "lib" "/lib"])
    = Some dirs
    /\ dirs = ["/flash"; "/flash/lib"; "/flash/lib/net"]
    /\ precedes "/flash" "/flash/lib/net" dirs.
Proof.
  destruct (proj1 (getAllMappedDirectories_ancestors_by_depth
                     ["lib/net/http.py"; "lib/util.py"] "/flash"
                     (Some [mkPathMapping "lib" "/lib"])))
    as (dirs & Hget & _ & _ & _ & Hprec).
  exists dirs. split; [exact Hget|].
  assert (E : dirs = ["/flash"; "/flash/lib"; "/flash/lib/net"]).
  { vm_compute in Hget. now injection Hget as <-. }
  split; [exact E|].
  apply Hprec.
  - rewrite E. now left.
  - rewrite E. right. right. now left.
  - now exists 1.
Defined.

(** * Further properties of the mapper *)

(** ** Rules that do not match, spellings, backslashes *)

Section ScanFacts.

Lemma isRootPrefix_normal (s : string) :
  isNormal s = true -> isRootPrefix s = String.eqb s "".
Proof.
  intros H. unfold isRootPrefix.
  destruct (String.eqb_spec s "/") as [->|_]; [discriminate H|].
  apply orb_false_r.
Qed.

Lemma reverseMapping_match (rel : string) (m : PathMapping) :
  reverseRuleApplies rel m = true -> exists r, reverseMapping rel m = Some r.
Proof.
  unfold reverseRuleApplies, reverseMapping, isRootPrefix. intros H.
  rewrite effectiveDevicePrefix_not_slash, orb_false_r.
  destruct (String.eqb (effectiveDevicePrefix m) ""); [eauto|].
  destruct (String.eqb rel (effectiveDevicePrefix m)); [eauto|].
  cbn in H. rewrite H. eauto.
Qed.

Lemma hasBackslash_slice (s : string) (n : nat) :
  hasBackslash s = false -> hasBackslash (slice s n) = false.
Proof.
  revert s. induction n as [|n IH]; intros s H; [exact H|].
  destruct s as [|c s]; [reflexivity|]. cbn [slice]. apply IH.
  cbn [hasBackslash] in H. now apply orb_false_elim in H.
Qed.

Lemma normalizePath_no_backslash (p : string) :
  hasBackslash (normalizePath p) = false.
Proof.
  now destruct (proj1 (isNormal_parts _) (normalizePath_isNormal p)).
Qed.

Lemma hasBackslash_joinUnderRoot (r l : string) :
  hasBackslash r = false -> hasBackslash l = false ->
  hasBackslash (joinUnderRoot r l) = false.
Proof.
  intros Hr Hl. rewrite joinUnderRoot_append, hasBackslash_append.
  cbn [append hasBackslash]. now rewrite Hr, Hl.
Qed.

Lemma hasBackslash_applyMapping (nl nroot : string) (m : PathMapping)
  (r : string) :
  hasBackslash nl = false -> hasBackslash nroot = false ->
  applyMapping nl nroot m = Some r -> hasBackslash r = false.
Proof.
  intros Hl Hr. unfold applyMapping.
  pose proof (normalizePath_no_backslash (device m)) as Hd.
  pose proof (hasBackslash_slice nl
                (String.length (normalizePath (local m)) + 1) Hl) as Hs.
  destruct (String.eqb nl (normalizePath (local m))).
  - destruct (isRootPrefix _); now intros [= <-].
  - destruct (startsWith nl _); [|discriminate].
    intros [= <-]. apply collapseSlashes_no_backslash.
    destruct (negb (String.eqb nroot "") && _);
      destruct (isRootPrefix _);
      rewrite ?hasBackslash_append; cbn [append hasBackslash];
      rewrite ?hasBackslash_append; cbn [append hasBackslash];
      now rewrite ?Hr, ?Hd, ?Hs.
Qed.

End ScanFacts.

(** X1. Only the rules that match the local path count: the result of
    [applyPathMappings] is unchanged when the rules that match it neither
    exactly nor as a prefix are removed from the list, wherever they
    stand. *)
Theorem applyPathMappings_only_matching_rules (localRel rootPath : string)
  (rules : list PathMapping) :
  applyPathMappings localRel rootPath (Some rules)
  = applyPathMappings localRel rootPath
      (Some (filter (ruleMatches (normalizePath localRel)) rules)).
Proof.
  rewrite !applyPathMappings_scan. cbn [rulesOf].
  induction rules as [|m ms IH]; [reflexivity|].
  cbn [filter]. destruct (ruleMatches (normalizePath localRel) m) eqn:E.
  - destruct (applyMapping_match _ (effectiveRoot rootPath) _ E) as [r Hr].
    now rewrite !(applyScan_first _ _ _ _ _ Hr).
  - cbn [applyScan]. now rewrite (applyMapping_no_match _ _ _ E).
Qed.

(** X2. A local path that is exactly the local prefix of the first rule
    matching it is sent to the device prefix of that rule (to ["/"] when
    the prefix normalizes to the empty string), and the root plays no part:
    the result is the same for every [rootPath]. *)
Theorem applyPathMappings_exact_ignores_root (localRel rootPath : string)
  (pre post : list PathMapping) (m : PathMapping) :
  forallb (fun m' => negb (ruleMatches (normalizePath localRel) m')) pre
  = true ->
  normalizePath localRel = normalizePath (local m) ->
  applyPathMappings localRel rootPath (Some (pre ++ m :: post)%list)
  = (if String.eqb (normalizePath (device m)) "" then "/"
     else normalizePath (device m))
  /\ forall rootPath',
       applyPathMappings localRel rootPath' (Some (pre ++ m :: post)%list)
       = applyPathMappings localRel rootPath (Some (pre ++ m :: post)%list).
Proof.
  intros Hpre Hm.
  assert (E : forall r,
             applyPathMappings localRel r (Some (pre ++ m :: post)%list)
             = if String.eqb (normalizePath (device m)) "" then "/"
               else normalizePath (device m)).
  { intros r. rewrite applyPathMappings_scan. cbn [rulesOf].
    rewrite (applyScan_skip _ _ _ _ Hpre). cbn [applyScan].
    unfold applyMapping. rewrite Hm, String.eqb_refl.
    rewrite isRootPrefix_normal by apply normalizePath_isNormal.
    now destruct (String.eqb (normalizePath (device m)) ""). }
  split; [apply E|]. intros r'. now rewrite !E.
Qed.

Lemma applyPathMappings_exact_ignores_root_witness :
  applyPathMappings "src/" "/flash"
    (Some [mkPathMapping "lib" "/lib"; mkPathMapping "src" "/app/"])
  = "/app"
  /\ applyPathMappings "src/" "/flash"
       (Some [mkPathMapping "lib" "/lib"; mkPathMapping "src" "/"])
     = "/".
Proof.
  split.
  - refine (eq_trans
              (proj1 (applyPathMappings_exact_ignores_root "src/" "/flash"
                        [mkPathMapping "lib" "/lib"] []
                        (mkPathMapping "src" "/app/") _ _)) _);
      reflexivity.
  - refine (eq_trans
              (proj1 (applyPathMappings_exact_ignores_root "src/" "/flash"
                        [mkPathMapping "lib" "/lib"] []
                        (mkPathMapping "src" "/") _ _)) _);
      reflexivity.
Defined.

(** X3. The forward mapping does not depend on how the local path and the
    root are spelled: two spellings of the local path and two spellings of
    the root (backslashes for slashes, duplicated slashes, a trailing
    slash) give the same device path, and so do the local path and the
    root once normalized. *)
Theorem applyPathMappings_spelling (localRel localRel' rootPath rootPath'
  : string) (mappings : option (list PathMapping)) :
  pathVariant localRel localRel' ->
  pathVariant rootPath rootPath' ->
  applyPathMappings localRel rootPath mappings
  = applyPathMappings localRel' rootPath' mappings
  /\ applyPathMappings (normalizePath localRel) (normalizePath rootPath)
       mappings
     = applyPathMappings localRel rootPath mappings.
Proof.
  intros Hl Hr. rewrite !applyPathMappings_scan.
  rewrite !effectiveRoot_normalizePath. split.
  - now rewrite (normalizePath_variant _ _ Hl),
      (normalizePath_variant _ _ Hr).
  - now rewrite (normalizePath_fixed (normalizePath localRel)),
      (normalizePath_fixed (normalizePath rootPath))
      by apply normalizePath_isNormal.
Qed.

Lemma applyPathMappings_spelling_witness :
  applyPathMappings "src\main.py" "/flash/"
    (Some [mkPathMapping "src" "/app"])
  = applyPathMappings "src/main.py" "/flash"
      (Some [mkPathMapping "src" "/app"]).
Proof.
  refine (proj1 (applyPathMappings_spelling "src\main.py" "src/main.py"
                   "/flash/" "/flash" _ _ _)).
  - exact (variant_backslash "src" "main.py").
  - exact (variant_trailing "/flash").
Defined.

(** X4. The reverse mapping does not depend on how the device path and the
    root are spelled either. *)
Theorem reversePathMappings_spelling (devicePath devicePath' rootPath
  rootPath' : string) (mappings : option (list PathMapping)) :
  pathVariant devicePath devicePath' ->
  pathVariant rootPath rootPath' ->
  reversePathMappings devicePath rootPath mappings
  = reversePathMappings devicePath' rootPath' mappings
  /\ reversePathMappings (normalizePath devicePath) (normalizePath rootPath)
       mappings
     = reversePathMappings devicePath rootPath mappings.
Proof.
  intros Hd Hr. rewrite !reversePathMappings_scan.
  rewrite !effectiveRoot_normalizePath. split.
  - now rewrite (normalizePath_variant _ _ Hd),
      (normalizePath_variant _ _ Hr).
  - now rewrite (normalizePath_fixed (normalizePath devicePath)),
      (normalizePath_fixed (normalizePath rootPath))
      by apply normalizePath_isNormal.
Qed.

Lemma reversePathMappings_spelling_witness :
  reversePathMappings "/flash//app/main.py" "/flash/"
    (Some [mkPathMapping "src" "/app"])
  = reversePathMappings "/flash/app/main.py" "/flash"
      (Some [mkPathMapping "src" "/app"]).
Proof.
  refine (proj1 (reversePathMappings_spelling "/flash//app/main.py"
                   "/flash/app/main.py" "/flash/" "/flash" _ _ _)).
  - exact (variant_duplicate "/flash" "app/main.py").
  - exact (variant_trailing "/flash").
Defined.

(** X5. [applyPathMappings] never returns a backslash, whatever the
    separators of its inputs and of the rules. *)
Theorem applyPathMappings_no_backslash (localRel rootPath : string)
  (mappings : option (list PathMapping)) :
  hasBackslash (applyPathMappings localRel rootPath mappings) = false.
Proof.
  rewrite applyPathMappings_scan.
  pose proof (normalizePath_no_backslash localRel) as Hl.
  assert (Hr : hasBackslash (effectiveRoot rootPath) = false)
    by (rewrite effectiveRoot_normalizePath;
        apply normalizePath_no_backslash).
  induction (rulesOf mappings) as [|m ms IH]; cbn [applyScan].
  - now apply hasBackslash_joinUnderRoot.
  - destruct (applyMapping _ _ m) as [r|] eqn:E; [|exact IH].
    exact (hasBackslash_applyMapping _ _ _ _ Hl Hr E).
Qed.

(** X6. In the reverse direction too only the rules that return count: the
    result of [reversePathMappings] is unchanged when the rules whose
    effective device prefix is neither empty, nor the relative device path,
    nor a prefix of it before a slash, are removed from the list. *)
Theorem reversePathMappings_only_applying_rules (devicePath rootPath
  : string) (rules : list PathMapping) :
  reversePathMappings devicePath rootPath (Some rules)
  = reversePathMappings devicePath rootPath
      (Some (filter
               (reverseRuleApplies
                  (stripRoot (normalizePath devicePath)
                     (effectiveRoot rootPath)))
               rules)).
Proof.
  rewrite !reversePathMappings_scan. cbn [rulesOf].
  induction rules as [|m ms IH]; [reflexivity|].
  cbn [filter]. destruct (reverseRuleApplies _ m) eqn:E.
  - destruct (reverseMapping_match _ _ E) as [r Hr].
    cbn [reverseScan]. now rewrite Hr.
  - cbn [reverseScan]. now rewrite (reverseMapping_no_match _ _ E).
Qed.

(** ** Round trips through a rule *)

Section RoundTrip.

Lemma hasDoubleSlash_append_r (a b : string) :
  hasDoubleSlash (a ++ b) = false -> hasDoubleSlash b = false.
Proof.
  induction a as [|c a IH]; [easy|].
  cbn [append]. rewrite hasDoubleSlash_cons. intros H.
  apply orb_false_elim in H as [_ H]. now apply IH.
Qed.

Lemma endsWithSlash_append (a b : string) :
  b <> "" -> endsWithSlash (a ++ b) = endsWithSlash b.
Proof.
  intros Hb. induction a as [|c a IH]; [reflexivity|].
  cbn [append]. rewrite endsWithSlash_cons.
  destruct (a ++ b) eqn:E; [|exact IH].
  destruct a; [now elim Hb | discriminate E].
Qed.

Lemma isNormal_suffix (a b : string) :
  isNormal (a ++ b) = true -> isNormal b = true.
Proof.
  intros H. destruct (string_dec b "") as [->|Hb]; [reflexivity|].
  apply isNormal_parts in H as (H1 & H2 & H3). apply isNormal_parts.
  rewrite hasBackslash_append in H1. apply orb_false_elim in H1 as [_ H1].
  rewrite endsWithSlash_append in H3 by assumption.
  repeat split; try assumption. now apply hasDoubleSlash_append_r in H2.
Qed.

Lemma headSlash_after_slash (a b : string) :
  hasDoubleSlash (a ++ String slash b) = false -> headSlash b = false.
Proof.
  intros H. apply hasDoubleSlash_append_r in H.
  rewrite hasDoubleSlash_cons in H. now apply orb_false_elim in H as [H _].
Qed.

Lemma endsWithSlash_trailing (a : string) :
  endsWithSlash (a ++ String slash "") = true.
Proof. now rewrite endsWithSlash_append. Qed.

Lemma append_longer (a : string) (c : ascii) (b : string) :
  String.eqb (a ++ String c b) a = false.
Proof.
  apply String.eqb_neq. intros H. apply (f_equal String.length) in H.
  rewrite length_append in H. cbn [String.length] in H. lia.
Qed.

(** What is left of a normal path after a prefix and a slash. *)
Lemma prefix_match_parts (nl nlp : string) :
  isNormal nl = true -> startsWith nl (nlp ++ "/") = true ->
  nl = nlp ++ "/" ++ slice nl (String.length nlp + 1)
  /\ slice nl (String.length nlp + 1) <> ""
  /\ isNormal (slice nl (String.length nlp + 1)) = true
  /\ headSlash (slice nl (String.length nlp + 1)) = false.
Proof.
  intros Hn Hs. apply startsWith_split in Hs.
  rewrite length_append in Hs. cbn [String.length] in Hs.
  rewrite append_assoc in Hs.
  set (rel := slice nl (String.length nlp + 1)) in *.
  split; [exact Hs|]. rewrite Hs in Hn.
  pose proof (proj1 (isNormal_parts _) Hn) as (_ & H2 & H3).
  repeat split.
  - intros E. rewrite E in H3.
    change (nlp ++ "/" ++ "") with (nlp ++ String slash "") in H3.
    now rewrite endsWithSlash_trailing in H3.
  - exact (isNormal_suffix (nlp ++ "/") rel
             ltac:(now rewrite append_assoc)).
  - exact (headSlash_after_slash nlp rel H2).
Qed.

(** The effective device prefix of a rule: the normalized device prefix,
    less its leading slash if it has one. *)
Lemma effectiveDevicePrefix_parts (m : PathMapping) :
  (normalizePath (device m) = "" /\ effectiveDevicePrefix m = "")
  \/ ((normalizePath (device m) = String slash (effectiveDevicePrefix m)
       \/ normalizePath (device m) = effectiveDevicePrefix m)
      /\ effectiveDevicePrefix m <> ""
      /\ headSlash (effectiveDevicePrefix m) = false
      /\ isNormal (effectiveDevicePrefix m) = true).
Proof.
  unfold effectiveDevicePrefix. rewrite startsWith_slash.
  pose proof (normalizePath_isNormal (device m)) as Hn.
  destruct (normalizePath (device m)) as [|c s]; [now left|]. right.
  destruct (isSlash c) eqn:Ec.
  - apply isSlash_true in Ec. subst c. cbn [slice].
    pose proof (proj1 (isNormal_parts _) Hn) as (_ & H2 & H3).
    repeat split.
    + now left.
    + intros ->. discriminate H3.
    + exact (headSlash_after_slash "" s H2).
    + exact (isNormal_suffix (String slash "") s Hn).
  - repeat split; [now right | discriminate | exact Ec | exact Hn].
Qed.

Lemma stripRoot_relative (d : string) :
  headSlash d = false -> stripRoot d "" = d.
Proof.
  intros H. unfold stripRoot. cbn [String.eqb negb andb].
  now rewrite startsWith_slash; destruct d; [|cbn in H; rewrite H].
Qed.

(** The relative device path a rule sends [rel] to, and back. *)
Lemma reverseMapping_target (m : PathMapping) (rel : string) :
  reverseMapping
    (if String.eqb (effectiveDevicePrefix m) "" then rel
     else effectiveDevicePrefix m ++ "/" ++ rel) m
  = Some (normalizePath (local m) ++ "/" ++ rel).
Proof.
  unfold reverseMapping, isRootPrefix.
  rewrite effectiveDevicePrefix_not_slash, orb_false_r.
  destruct (String.eqb (effectiveDevicePrefix m) ""); [reflexivity|].
  change ("/" ++ rel) with (String slash rel). rewrite append_longer.
  change (String slash rel) with ("/" ++ rel).
  replace (effectiveDevicePrefix m ++ "/" ++ rel)
    with ((effectiveDevicePrefix m ++ "/") ++ rel)
    by now rewrite append_assoc.
  rewrite startsWith_append.
  replace (String.length (effectiveDevicePrefix m) + 1)
    with (String.length (effectiveDevicePrefix m ++ "/"))
    by now rewrite length_append.
  now rewrite slice_append.
Qed.

Lemma target_parts (m : PathMapping) (rel : string) :
  rel <> "" -> isNormal rel = true -> headSlash rel = false ->
  (if String.eqb (effectiveDevicePrefix m) "" then rel
   else effectiveDevicePrefix m ++ "/" ++ rel) <> ""
  /\ isNormal (if String.eqb (effectiveDevicePrefix m) "" then rel
               else effectiveDevicePrefix m ++ "/" ++ rel) = true
  /\ headSlash (if String.eqb (effectiveDevicePrefix m) "" then rel
                else effectiveDevicePrefix m ++ "/" ++ rel) = false.
Proof.
  intros H1 H2 H3.
  destruct (effectiveDevicePrefix_parts m) as [[_ ->]|(_ & E1 & E2 & E3)];
    [now cbn|].
  apply String.eqb_neq in E1. rewrite E1. apply String.eqb_neq in E1.
  repeat split.
  - apply append_nonempty_r.
  - now apply isNormal_join.
  - now rewrite headSlash_append.
Qed.

(** The device path a prefix rule produces: the target under the root, or
    the bare target when there is no root and the device prefix is
    relative. *)
Lemma applyMapping_prefix (nl nroot : string) (m : PathMapping) :
  isNormal nl = true -> isNormal nroot = true ->
  nl <> normalizePath (local m) ->
  startsWith nl (normalizePath (local m) ++ "/") = true ->
  nroot = "" \/ startsWith (normalizePath (device m)) nroot = false ->
  exists F T,
    applyMapping nl nroot m = Some F
    /\ reverseMapping T m = Some nl
    /\ T <> "" /\ isNormal T = true /\ headSlash T = false
    /\ (F = joinUnderRoot nroot T \/ (F = T /\ nroot = "")).
Proof.
  intros Hnl Hnr Hne Hpx Hroot.
  destruct (prefix_match_parts _ _ Hnl Hpx) as (Enl & R1 & R2 & R3).
  set (rel := slice nl (String.length (normalizePath (local m)) + 1)) in *.
  set (T := if String.eqb (effectiveDevicePrefix m) "" then rel
            else effectiveDevicePrefix m ++ "/" ++ rel).
  destruct (target_parts m rel R1 R2 R3) as (T1 & T2 & T3). fold T in T1, T2, T3.
  assert (Hjoin : collapseSlashes (nroot ++ "/" ++ T) = joinUnderRoot nroot T).
  { rewrite joinUnderRoot_append. apply collapseSlashes_fixed.
    now apply isNormal_parts, isNormal_join. }
  assert (Hrev : reverseMapping T m = Some nl).
  { subst T. rewrite reverseMapping_target. now rewrite <- Enl. }
  unfold applyMapping. fold rel.
  apply String.eqb_neq in Hne. rewrite Hne, Hpx.
  rewrite isRootPrefix_normal by apply normalizePath_isNormal.
  destruct (effectiveDevicePrefix_parts m)
    as [[Ed Ee]|([Ed|Ed] & E1 & E2 & E3)].
  - (* the device prefix is the device root *)
    assert (ET : T = rel) by (subst T; now rewrite Ee).
    rewrite Ed. cbn [String.eqb]. exists (joinUnderRoot nroot T), T.
    repeat split; try assumption; [|now left].
    f_equal. rewrite <- Hjoin, ET.
    destruct (String.eqb_spec nroot "") as [->|N]; cbn [negb andb];
      [reflexivity|].
    now destruct nroot.
  - (* an absolute device prefix *)
    assert (ET : T = effectiveDevicePrefix m ++ "/" ++ rel).
    { subst T. apply String.eqb_neq in E1. now rewrite E1. }
    rewrite Ed. cbn [String.eqb]. exists (joinUnderRoot nroot T), T.
    repeat split; try assumption; [|now left].
    f_equal. rewrite <- Hjoin, ET.
    destruct (String.eqb_spec nroot "") as [->|N]; cbn [negb andb];
      [reflexivity|].
    destruct Hroot as [Hroot|Hroot]; [now elim N|].
    rewrite Ed in Hroot. rewrite Hroot. cbn [negb].
    exact (collapseSlashes_duplicate nroot
             (effectiveDevicePrefix m ++ "/" ++ rel)).
  - (* a relative device prefix *)
    assert (ET : T = effectiveDevicePrefix m ++ "/" ++ rel).
    { subst T. apply String.eqb_neq in E1. now rewrite E1. }
    rewrite Ed. apply String.eqb_neq in E1. rewrite E1.
    destruct (String.eqb_spec nroot "") as [->|N]; cbn [negb andb].
    + exists T, T. repeat split; try assumption; [|now right].
      f_equal. rewrite <- ET. apply collapseSlashes_fixed.
      now apply isNormal_parts.
    + destruct Hroot as [Hroot|Hroot]; [now elim N|].
      rewrite Ed in Hroot. rewrite Hroot. cbn [negb].
      exists (joinUnderRoot nroot T), T.
      repeat split; try assumption; [|now left].
      f_equal. now rewrite <- Hjoin, ET.
Qed.

End RoundTrip.

Section RoundTripFacts.

Lemma applyMapping_prefix_normal (nl nroot : string) (m : PathMapping) :
  isNormal nl = true -> isNormal nroot = true ->
  nl <> normalizePath (local m) ->
  startsWith nl (normalizePath (local m) ++ "/") = true ->
  exists F, applyMapping nl nroot m = Some F /\ isNormal F = true.
Proof.
  intros Hnl Hnr Hne Hpx.
  destruct (string_dec nroot "") as [Hr|Hr];
    [|destruct (startsWith (normalizePath (device m)) nroot) eqn:Es].
  - destruct (applyMapping_prefix _ _ _ Hnl Hnr Hne Hpx (or_introl Hr))
      as (F & T & HF & _ & T1 & T2 & T3 & [->|[-> _]]); eexists;
      (split; [exact HF|]); [|assumption].
    rewrite joinUnderRoot_append. now apply isNormal_join.
  - destruct (prefix_match_parts _ _ Hnl Hpx) as (_ & R1 & R2 & R3).
    unfold applyMapping. apply String.eqb_neq in Hne. rewrite Hne, Hpx, Es.
    rewrite andb_false_r.
    rewrite (isNormal_not_root_prefix _ nroot)
      by auto using normalizePath_isNormal.
    eexists. split; [reflexivity|].
    assert (N : isNormal (normalizePath (device m) ++ "/"
                          ++ slice nl
                               (String.length (normalizePath (local m)) + 1))
                = true)
      by (apply isNormal_join; auto using normalizePath_isNormal).
    rewrite collapseSlashes_fixed; [exact N|].
    now apply isNormal_parts in N.
  - destruct (applyMapping_prefix _ _ _ Hnl Hnr Hne Hpx (or_intror Es))
      as (F & T & HF & _ & T1 & T2 & T3 & [->|[-> _]]); eexists;
      (split; [exact HF|]); [|assumption].
    rewrite joinUnderRoot_append. now apply isNormal_join.
Qed.

Lemma headSlash_stripRoot (d r : string) :
  isNormal d = true -> headSlash (stripRoot d r) = false.
Proof.
  intros Hn. apply isNormal_parts in Hn as (_ & H2 & _). unfold stripRoot.
  destruct (negb (String.eqb r "") && startsWith d (r ++ "/")) eqn:E.
  - apply andb_true_iff in E as [_ E]. apply startsWith_split in E.
    rewrite length_append in E. cbn [String.length] in E.
    rewrite append_assoc in E. rewrite E in H2.
    exact (headSlash_after_slash r _ H2).
  - rewrite startsWith_slash. destruct d as [|c s]; [reflexivity|].
    destruct (isSlash c) eqn:Ec; [|exact Ec].
    apply isSlash_true in Ec. subst c. cbn [slice].
    exact (headSlash_after_slash "" s H2).
Qed.

Lemma headSlash_reverseMapping (rel : string) (m : PathMapping)
  (r : string) :
  headSlash rel = false ->
  emptyOrAbsolute (normalizePath (local m)) = false ->
  reverseMapping rel m = Some r -> headSlash r = false.
Proof.
  intros Hrel Hm. unfold emptyOrAbsolute in Hm.
  apply orb_false_elim in Hm as [Hne Hh]. apply String.eqb_neq in Hne.
  unfold reverseMapping.
  destruct (isRootPrefix _);
    [|destruct (String.eqb rel _); [|destruct (startsWith rel _)]];
    intros [= <-]; rewrite ?headSlash_append by assumption; assumption.
Qed.

Lemma hasNonSlash_stripTrailingSlash (s : string) :
  hasNonSlash (stripTrailingSlash s) = hasNonSlash s.
Proof.
  induction s as [|c s IH]; [reflexivity|].
  rewrite stripTrailingSlash_cons. destruct s as [|d s].
  - destruct (isSlash c) eqn:Ec; cbn [hasNonSlash]; now rewrite ?Ec.
  - cbn [hasNonSlash] in *. now rewrite IH.
Qed.

Lemma collapseSlashes_all_slashes (s : string) :
  hasNonSlash s = false ->
  collapseSlashes s = "" \/ collapseSlashes s = "/".
Proof.
  induction s as [|c s IH]; [now left|].
  cbn [hasNonSlash]. intros H. apply orb_false_elim in H as [Hc Hs].
  apply negb_false_iff in Hc. rewrite collapseSlashes_cons, Hc.
  destruct (headSlash s) eqn:E; [now apply IH|].
  destruct s as [|d s]; [now right|].
  cbn [hasNonSlash headSlash] in Hs, E. now rewrite E in Hs.
Qed.

Lemma normalizePath_empty (p : string) :
  normalizePath p = "" <-> hasNonSeparator p = false.
Proof.
  unfold normalizePath. split.
  - intros H. apply (f_equal hasNonSlash) in H.
    now rewrite hasNonSlash_stripTrailingSlash, hasNonSlash_collapseSlashes,
      hasNonSlash_replaceBackslashes in H.
  - intros H. rewrite <- hasNonSlash_replaceBackslashes in H.
    now destruct (collapseSlashes_all_slashes _ H) as [-> | ->].
Qed.

End RoundTripFacts.

(** X7. Round trip through a prefix rule.  When the local path lies under
    the local prefix of the first rule of the list, and the root is empty
    or is not a prefix of the normalized device prefix of that rule, then
    mapping the path to the device and back with the same root and rules
    gives the normalized local path, whatever the other rules are. *)
Theorem prefix_rule_round_trip (localRel rootPath : string)
  (m : PathMapping) (rest : list PathMapping) :
  normalizePath localRel <> normalizePath (local m) ->
  startsWith (normalizePath localRel) (normalizePath (local m) ++ "/")
  = true ->
  effectiveRoot rootPath = ""
  \/ startsWith (normalizePath (device m)) (effectiveRoot rootPath)
     = false ->
  reversePathMappings
    (applyPathMappings localRel rootPath (Some (m :: rest))) rootPath
    (Some (m :: rest))
  = normalizePath localRel.
Proof.
  intros Hne Hpx Hroot.
  destruct (applyMapping_prefix _ _ m (normalizePath_isNormal localRel)
              (effectiveRoot_isNormal rootPath) Hne Hpx Hroot)
    as (F & T & HF & HT & T1 & T2 & T3 & HFT).
  rewrite applyPathMappings_scan, reversePathMappings_scan. cbn [rulesOf].
  rewrite (applyScan_first _ _ _ _ _ HF).
  assert (E : stripRoot (normalizePath F) (effectiveRoot rootPath) = T).
  { destruct HFT as [->|[-> Hr]].
    - apply reverse_of_join; auto using effectiveRoot_isNormal.
    - rewrite Hr, normalizePath_fixed by assumption.
      now apply stripRoot_relative. }
  rewrite E. cbn [reverseScan]. now rewrite HT.
Qed.

Lemma prefix_rule_round_trip_witness :
  applyPathMappings "lib\net/http.py" "/flash"
    (Some [mkPathMapping "lib" "/pkg"; mkPathMapping "src" "/"])
  = "/flash/pkg/net/http.py"
  /\ reversePathMappings
       (applyPathMappings "lib\net/http.py" "/flash"
          (Some [mkPathMapping "lib" "/pkg"; mkPathMapping "src" "/"]))
       "/flash" (Some [mkPathMapping "lib" "/pkg"; mkPathMapping "src" "/"])
     = "lib/net/http.py".
Proof.
  split; [reflexivity|].
  refine (eq_trans
            (prefix_rule_round_trip "lib\net/http.py" "/flash"
               (mkPathMapping "lib" "/pkg") [mkPathMapping "src" "/"]
               _ _ _) _);
    [discriminate | reflexivity | right; reflexivity | reflexivity].
Defined.

(** X8. A device path produced by a prefix match is in canonical form: it
    has no backslash, no two slashes in a row and no trailing slash, so
    that normalizing it again changes nothing. *)
Theorem applyPathMappings_prefix_canonical (localRel rootPath : string)
  (pre post : list PathMapping) (m : PathMapping) :
  forallb (fun m' => negb (ruleMatches (normalizePath localRel) m')) pre
  = true ->
  normalizePath localRel <> normalizePath (local m) ->
  startsWith (normalizePath localRel) (normalizePath (local m) ++ "/")
  = true ->
  isNormal
    (applyPathMappings localRel rootPath (Some (pre ++ m :: post)%list))
  = true
  /\ normalizePath
       (applyPathMappings localRel rootPath (Some (pre ++ m :: post)%list))
     = applyPathMappings localRel rootPath (Some (pre ++ m :: post)%list).
Proof.
  intros Hpre Hne Hpx.
  destruct (applyMapping_prefix_normal _ _ m
              (normalizePath_isNormal localRel)
              (effectiveRoot_isNormal rootPath) Hne Hpx) as (F & HF & HN).
  rewrite applyPathMappings_scan. cbn [rulesOf].
  rewrite (applyScan_skip _ _ _ _ Hpre), (applyScan_first _ _ _ _ _ HF).
  split; [exact HN | now apply normalizePath_fixed].
Qed.

Lemma applyPathMappings_prefix_canonical_witness :
  isNormal
    (applyPathMappings "src//main.py" "/flash/"
       (Some [mkPathMapping "lib" "/lib"; mkPathMapping "src\" "/"]))
  = true.
Proof.
  exact (proj1 (applyPathMappings_prefix_canonical "src//main.py" "/flash/"
                  [mkPathMapping "lib" "/lib"] [] (mkPathMapping "src\" "/")
                  eq_refl ltac:(discriminate) eq_refl)).
Defined.

(** X9. Round trip through an exact match.  When the local path is exactly
    the local prefix of the first rule, the device prefix of that rule does
    not normalize to the empty string, and the root is empty or the device
    prefix does not lie under it, mapping the path to the device and back
    gives the normalized local path. *)
Theorem exact_rule_round_trip (localRel rootPath : string)
  (m : PathMapping) (rest : list PathMapping) :
  normalizePath localRel = normalizePath (local m) ->
  normalizePath (device m) <> "" ->
  effectiveRoot rootPath = ""
  \/ startsWith (normalizePath (device m)) (effectiveRoot rootPath ++ "/")
     = false ->
  reversePathMappings
    (applyPathMappings localRel rootPath (Some (m :: rest))) rootPath
    (Some (m :: rest))
  = normalizePath localRel.
Proof.
  intros Hm Hd Hroot.
  rewrite applyPathMappings_scan, reversePathMappings_scan.
  cbn [rulesOf applyScan]. unfold applyMapping.
  rewrite Hm, String.eqb_refl.
  rewrite isRootPrefix_normal by apply normalizePath_isNormal.
  apply String.eqb_neq in Hd. rewrite Hd. apply String.eqb_neq in Hd.
  rewrite normalizePath_fixed by apply normalizePath_isNormal.
  assert (E : stripRoot (normalizePath (device m)) (effectiveRoot rootPath)
              = effectiveDevicePrefix m).
  { unfold stripRoot, effectiveDevicePrefix.
    destruct Hroot as [-> | ->]; [reflexivity | now rewrite andb_false_r]. }
  rewrite E. cbn [reverseScan]. unfold reverseMapping, isRootPrefix.
  rewrite effectiveDevicePrefix_not_slash, orb_false_r.
  destruct (effectiveDevicePrefix_parts m) as [[E0 _]|(_ & E1 & _)];
    [now elim Hd|].
  apply String.eqb_neq in E1. now rewrite E1, String.eqb_refl.
Qed.

Lemma exact_rule_round_trip_witness :
  applyPathMappings "lib/" "/flash"
    (Some [mkPathMapping "lib" "/pkg"; mkPathMapping "src" "/"])
  = "/pkg"
  /\ reversePathMappings
       (applyPathMappings "lib/" "/flash"
          (Some [mkPathMapping "lib" "/pkg"; mkPathMapping "src" "/"]))
       "/flash" (Some [mkPathMapping "lib" "/pkg"; mkPathMapping "src" "/"])
     = "lib".
Proof.
  split; [reflexivity|].
  refine (eq_trans
            (exact_rule_round_trip "lib/" "/flash"
               (mkPathMapping "lib" "/pkg") [mkPathMapping "src" "/"]
               _ _ _) _);
    [reflexivity | discriminate | right; reflexivity | reflexivity].
Defined.

(** X10. [reversePathMappings] returns a relative path: when the local
    prefix of every rule normalizes to a non-empty string that does not
    start with ['/'] (in particular without rules), the result does not
    start with ['/']. *)
Theorem reversePathMappings_relative (devicePath rootPath : string)
  (mappings : option (list PathMapping)) :
  forallb (fun m => negb (emptyOrAbsolute (normalizePath (local m))))
    (rulesOf mappings) = true ->
  headSlash (reversePathMappings devicePath rootPath mappings) = false.
Proof.
  intros Hm. rewrite reversePathMappings_scan.
  pose proof (headSlash_stripRoot _ (effectiveRoot rootPath)
                (normalizePath_isNormal devicePath)) as Hrel.
  induction (rulesOf mappings) as [|m ms IH]; cbn [reverseScan];
    [exact Hrel|].
  cbn [forallb] in Hm. apply andb_true_iff in Hm as [Hl Hms].
  apply negb_true_iff in Hl.
  destruct (reverseMapping _ m) as [r|] eqn:E; [|now apply IH].
  exact (headSlash_reverseMapping _ _ _ Hrel Hl E).
Qed.

Lemma reversePathMappings_relative_witness :
  reversePathMappings "/flash/main.py" "/flash"
    (Some [mkPathMapping "lib" "/lib"; mkPathMapping "src/" "/"])
  = "src/main.py"
  /\ headSlash
       (reversePathMappings "/flash/main.py" "/flash"
          (Some [mkPathMapping "lib" "/lib"; mkPathMapping "src/" "/"]))
     = false.
Proof.
  split; [reflexivity|].
  now apply reversePathMappings_relative.
Defined.

(** X11. A path normalizes to the empty string exactly when it has no
    character other than ['/'] and ['\']; such a root is an empty effective
    root, like ["/"], and such a device prefix is the device root. *)
Theorem normalizePath_empty_iff_separators (p : string) :
  (normalizePath p = "" <-> hasNonSeparator p = false)
  /\ (effectiveRoot p = "" <-> hasNonSeparator p = false)
  /\ (isRootPrefix (normalizePath p) = true <-> hasNonSeparator p = false).
Proof.
  rewrite effectiveRoot_normalizePath.
  rewrite isRootPrefix_normal by apply normalizePath_isNormal.
  rewrite String.eqb_eq. repeat split; apply normalizePath_empty.
Qed.

(** ** Further properties of the directory derivation *)

Section DirectoryFacts.

Lemma getAllMappedDirectories_members (localFiles : list string)
  (rootPath : string) (mappings : option (list PathMapping)) :
  exists dirs,
    getAllMappedDirectories localFiles rootPath mappings = Some dirs
    /\ NoDup dirs
    /\ sortedByDepth dirs
    /\ forall d,
         In d dirs
         <-> belowRoot d = true
             /\ exists f,
                  In f localFiles
                  /\ strictAncestor d
                       (applyPathMappings f rootPath mappings).
Proof.
  unfold getAllMappedDirectories.
  destruct (collectDirectories_spec rootPath mappings localFiles []
              (NoDup_nil _)) as (set & Hc & Hnd & Hin).
  rewrite Hc. exists (arraySort byDepth set).
  pose proof (arraySort_perm byDepth set) as Hp.
  split; [reflexivity|]. split; [exact (Permutation_NoDup Hp Hnd)|].
  split; [apply arraySort_sorted|].
  intros d. split.
  - intros H. apply (Permutation_in _ (Permutation_sym Hp)) in H.
    apply Hin in H as [[]|H]. exact H.
  - intros H. apply (Permutation_in _ Hp). apply Hin. now right.
Qed.

Lemma headSlash_applyPathMappings (localRel rootPath : string)
  (mappings : option (list PathMapping)) :
  emptyOrAbsolute (effectiveRoot rootPath) = true ->
  forallb (fun m => emptyOrAbsolute (normalizePath (device m)))
    (rulesOf mappings) = true ->
  headSlash (applyPathMappings localRel rootPath mappings) = true.
Proof.
  intros Hr Hm. rewrite applyPathMappings_scan.
  induction (rulesOf mappings) as [|m ms IH]; cbn [applyScan].
  - now apply headSlash_joinUnderRoot.
  - cbn [forallb] in Hm. apply andb_true_iff in Hm as [Hd Hms].
    destruct (applyMapping _ _ m) as [r|] eqn:E; [|now apply IH].
    now apply (headSlash_applyMapping _ _ _ _ Hr Hd E).
Qed.

Lemma slashAt_zero (p : string) : slashAt p 0 = headSlash p.
Proof. now destruct p. Qed.

Lemma headSlash_sliceTo (p : string) (e : nat) :
  1 <= e -> headSlash (sliceTo p e) = headSlash p.
Proof. destruct e; [lia|]. now destruct p. Qed.

Lemma headSlash_dirname (p : string) :
  headSlash p = true -> headSlash (dirname p) = true.
Proof.
  intros H. unfold dirname. rewrite slashAt_zero, H.
  destruct p as [|c s]; [discriminate|]. cbn [String.length Nat.eqb].
  destruct (dirnameEnd _ _ true) as [e|] eqn:E; [|reflexivity].
  apply dirnameEnd_found in E as ([E1 _] & _).
  cbn [andb]. destruct (Nat.eqb e 1); [reflexivity|].
  now rewrite headSlash_sliceTo.
Qed.

Lemma headSlash_dirnameIter (k : nat) (p : string) :
  headSlash p = true -> headSlash (dirnameIter k p) = true.
Proof.
  revert p. induction k as [|k IH]; intros p H; [exact H|].
  cbn [dirnameIter]. now apply IH, headSlash_dirname.
Qed.

Lemma dirnameIter_succ (k : nat) (p : string) :
  dirnameIter (S k) p = dirname (dirnameIter k p).
Proof.
  revert p. induction k as [|k IH]; intros p; [reflexivity|].
  change (dirnameIter (S (S k)) p) with (dirnameIter (S k) (dirname p)).
  now rewrite IH.
Qed.

End DirectoryFacts.

(** X12. The directory of a file, as [getMappedDeviceDirectory] gives it,
    is among the directories that [getAllMappedDirectories] returns for any
    list holding the file, unless it is the root ["/"]; it is never
    ["."]. *)
Theorem getMappedDeviceDirectory_listed (localRel rootPath : string)
  (mappings : option (list PathMapping)) (localFiles : list string) :
  In localRel localFiles ->
  getMappedDeviceDirectory localRel rootPath mappings <> "/" ->
  getMappedDeviceDirectory localRel rootPath mappings <> "."
  /\ exists dirs,
       getAllMappedDirectories localFiles rootPath mappings = Some dirs
       /\ In (getMappedDeviceDirectory localRel rootPath mappings) dirs.
Proof.
  intros Hf Hd.
  destruct (getAllMappedDirectories_members localFiles rootPath mappings)
    as (dirs & Hget & _ & _ & Hin).
  unfold getMappedDeviceDirectory in *.
  destruct (String.eqb_spec
              (dirname (applyPathMappings localRel rootPath mappings)) ".")
    as [E|E]; [now elim Hd|].
  split; [exact E|]. exists dirs. split; [exact Hget|].
  apply Hin. split.
  - unfold belowRoot. apply String.eqb_neq in Hd, E. now rewrite Hd, E.
  - exists localRel. split; [exact Hf|]. now exists 0.
Qed.

Lemma getMappedDeviceDirectory_listed_witness :
  getMappedDeviceDirectory "lib/net/http.py" "/"
    (Some [mkPathMapping "lib" "/pkg"])
  = "/pkg/net"
  /\ exists dirs,
       getAllMappedDirectories ["main.py"; "lib/net/http.py"] "/"
         (Some [mkPathMapping "lib" "/pkg"])
       = Some dirs
       /\ In "/pkg/net" dirs.
Proof.
  split; [reflexivity|].
  refine (proj2 (getMappedDeviceDirectory_listed "lib/net/http.py" "/"
                   (Some [mkPathMapping "lib" "/pkg"])
                   ["main.py"; "lib/net/http.py"] _ _)).
  - right. now left.
  - discriminate.
Defined.

(** X13. With an effective root that is empty or absolute and rules whose
    normalized device prefixes are empty or absolute, every directory that
    [getAllMappedDirectories] returns starts with ['/'], and so does the
    directory that [getMappedDeviceDirectory] returns. *)
Theorem mapped_directories_absolute (localFiles : list string)
  (rootPath : string) (mappings : option (list PathMapping)) :
  emptyOrAbsolute (effectiveRoot rootPath) = true ->
  forallb (fun m => emptyOrAbsolute (normalizePath (device m)))
    (rulesOf mappings) = true ->
  (exists dirs,
     getAllMappedDirectories localFiles rootPath mappings = Some dirs
     /\ forall d, In d dirs -> headSlash d = true)
  /\ forall localRel,
       headSlash (getMappedDeviceDirectory localRel rootPath mappings)
       = true.
Proof.
  intros Hr Hm. split.
  - destruct (getAllMappedDirectories_members localFiles rootPath mappings)
      as (dirs & Hget & _ & _ & Hin).
    exists dirs. split; [exact Hget|].
    intros d Hd. apply Hin in Hd as (_ & f & _ & k & <-).
    apply headSlash_dirnameIter.
    now apply headSlash_applyPathMappings.
  - intros localRel. unfold getMappedDeviceDirectory.
    destruct (String.eqb _ "."); [reflexivity|].
    now apply headSlash_dirname, headSlash_applyPathMappings.
Qed.

Lemma mapped_directories_absolute_witness :
  exists dirs,
    getAllMappedDirectories ["src/ui/view.py"; "lib/a.py"] "/flash"
      (Some [mkPathMapping "src" "/"; mkPathMapping "lib" "/lib"])
    = Some dirs
    /\ forall d, In d dirs -> headSlash d = true.
Proof.
  exact (proj1 (mapped_directories_absolute ["src/ui/view.py"; "lib/a.py"]
                  "/flash"
                  (Some [mkPathMapping "src" "/"; mkPathMapping "lib" "/lib"])
                  eq_refl eq_refl)).
Defined.

(** X14. The directories depend on the files as a set only: two lists with
    the same files, in any order and with any repetitions, give the same
    directories up to the order of directories of equal depth. *)
Theorem getAllMappedDirectories_file_order (localFiles localFiles'
  : list string) (rootPath : string)
  (mappings : option (list PathMapping)) :
  (forall f, In f localFiles <-> In f localFiles') ->
  exists dirs dirs',
    getAllMappedDirectories localFiles rootPath mappings = Some dirs
    /\ getAllMappedDirectories localFiles' rootPath mappings = Some dirs'
    /\ Permutation dirs dirs'.
Proof.
  intros Hf.
  destruct (getAllMappedDirectories_members localFiles rootPath mappings)
    as (dirs & Hget & Hnd & _ & Hin).
  destruct (getAllMappedDirectories_members localFiles' rootPath mappings)
    as (dirs' & Hget' & Hnd' & _ & Hin').
  exists dirs, dirs'. repeat split; try assumption.
  apply NoDup_Permutation; try assumption.
  intros d. rewrite Hin, Hin'. split;
    intros (Hb & f & Hfi & Ha); (split; [exact Hb|]); exists f;
    (split; [now apply Hf | exact Ha]).
Qed.

Lemma getAllMappedDirectories_file_order_witness :
  exists dirs dirs',
    getAllMappedDirectories ["a/b/c.py"; "a/d.py"] "/" None = Some dirs
    /\ getAllMappedDirectories ["a/d.py"; "a/b/c.py"; "a/d.py"] "/" None
       = Some dirs'
    /\ Permutation dirs dirs'.
Proof.
  apply getAllMappedDirectories_file_order.
  intros f. cbn [In]. tauto.
Defined.

(** X15. The returned list can be created in order: the parent of each of
    its directories is the root ["/"] (or ["."] for a relative path) or is
    itself in the list, before the directory. *)
Theorem getAllMappedDirectories_parents_first (localFiles : list string)
  (rootPath : string) (mappings : option (list PathMapping)) :
  exists dirs,
    getAllMappedDirectories localFiles rootPath mappings = Some dirs
    /\ forall d,
         In d dirs ->
         dirname d = "/" \/ dirname d = "."
         \/ precedes (dirname d) d dirs.
Proof.
  destruct (getAllMappedDirectories_members localFiles rootPath mappings)
    as (dirs & Hget & _ & Hs & Hin).
  exists dirs. split; [exact Hget|]. intros d Hd.
  destruct (belowRoot (dirname d)) eqn:E.
  - right. right. apply sorted_precedes; try assumption.
    + apply Hin. split; [exact E|].
      apply Hin in Hd as (_ & f & Hf & k & Hk).
      exists f. split; [exact Hf|]. exists (S k).
      now rewrite dirnameIter_succ, Hk.
    + now apply dirname_depth.
  - unfold belowRoot in E. apply andb_false_iff in E as [E|E];
      apply negb_false_iff, String.eqb_eq in E; auto.
Qed.

(** X16. Adding files never removes a directory: when every file of one
    list is in another, every directory returned for the first list is
    returned for the second. *)
Theorem getAllMappedDirectories_monotone (localFiles localFiles'
  : list string) (rootPath : string)
  (mappings : option (list PathMapping)) :
  (forall f, In f localFiles -> In f localFiles') ->
  exists dirs dirs',
    getAllMappedDirectories localFiles rootPath mappings = Some dirs
    /\ getAllMappedDirectories localFiles' rootPath mappings = Some dirs'
    /\ forall d, In d dirs -> In d dirs'.
Proof.
  intros Hf.
  destruct (getAllMappedDirectories_members localFiles rootPath mappings)
    as (dirs & Hget & _ & _ & Hin).
  destruct (getAllMappedDirectories_members localFiles' rootPath mappings)
    as (dirs' & Hget' & _ & _ & Hin').
  exists dirs, dirs'. repeat split; try assumption.
  intros d Hd. apply Hin in Hd as (Hb & f & Hfi & Ha). apply Hin'.
  split; [exact Hb|]. exists f. split; [now apply Hf | exact Ha].
Qed.

Lemma getAllMappedDirectories_monotone_witness :
  exists dirs dirs',
    getAllMappedDirectories ["a/b/c.py"] "/" None = Some dirs
    /\ getAllMappedDirectories ["x/y.py"; "a/b/c.py"] "/" None = Some dirs'
    /\ forall d, In d dirs -> In d dirs'.
Proof.
  apply getAllMappedDirectories_monotone.
  intros f [<-|[]]. right. now left.
Defined.

(** X17. First match wins in the reverse direction as well: when no rule
    before [m] returns for the relative device path and [m] does, the
    result of [reversePathMappings] is the one the rule [m] gives by
    itself, whatever rules come after it. *)
Theorem reversePathMappings_first_match_wins (devicePath rootPath : string)
  (pre post : list PathMapping) (m : PathMapping) :
  forallb
    (fun m' =>
       negb (reverseRuleApplies
               (stripRoot (normalizePath devicePath)
                  (effectiveRoot rootPath)) m')) pre
  = true ->
  reverseRuleApplies
    (stripRoot (normalizePath devicePath) (effectiveRoot rootPath)) m
  = true ->
  reversePathMappings devicePath rootPath (Some (pre ++ m :: post)%list)
  = reversePathMappings devicePath rootPath (Some [m]).
Proof.
  intros Hpre Hm. rewrite !reversePathMappings_scan. cbn [rulesOf].
  rewrite (reverseScan_skip _ _ _ Hpre).
  destruct (reverseMapping_match _ _ Hm) as [r Hr].
  cbn [reverseScan]. now rewrite Hr.
Qed.

Lemma reversePathMappings_first_match_wins_witness :
  reversePathMappings "/flash/pkg/net/http.py" "/flash"
    (Some [mkPathMapping "doc" "/d"; mkPathMapping "lib" "/pkg";
           mkPathMapping "vendor" "/pkg/net"])
  = "lib/net/http.py".
Proof.
  refine (eq_trans
            (reversePathMappings_first_match_wins "/flash/pkg/net/http.py"
               "/flash" [mkPathMapping "doc" "/d"]
               [mkPathMapping "vendor" "/pkg/net"]
               (mkPathMapping "lib" "/pkg") _ _) _);
    reflexivity.
Defined.
